(** * Uniswap-V3 position pricing (uniV3Pricing.py): a shallow embedding

    The Python module computes, with unbounded integers, the Q96 square-root
    price of a tick, the token amounts of a liquidity position and, on top
    of these, the per-token holdings of an Arcadia account.  Python integers
    are modelled as [Z] (floor division [//] is [Z.div], [%] is [Z.modulo],
    [<<] and [>>] are [Z.shiftl] and [Z.shiftr], [&] is [Z.land]); raised
    exceptions are modelled by the [Raise] constructor of [res]; the
    [defaultdict(int)] holding the result is a [gmap string Z]. *)

From Stdlib Require Import ZArith Lia Ascii String.
From stdpp Require Import gmap strings list.

Local Open Scope Z_scope.

(** ** Exceptions and results *)

(** The exceptions the module can raise.  [Web3Error] stands for any
    exception of the web3 client other than [ContractLogicError]. *)
Inductive exn : Type :=
  | ValueError (msg : string)
  | ZeroDivisionError
  | IndexError
  | Web3Error (msg : string).

Inductive res (A : Type) : Type :=
  | Ok (a : A)
  | Raise (e : exn).

Arguments Ok {A} a.
Arguments Raise {A} e.

(** Sequencing of statements: an exception raised by the first aborts the
    rest.  The instances give [res] stdpp's [x ← m; k] notation. *)
#[export] Instance res_bind : MBind res := fun A B k m =>
  match m with
  | Ok a => k a
  | Raise e => Raise e
  end.

#[export] Instance res_ret : MRet res := fun A a => Ok a.

(** ** Integer helpers *)

(** Python's [a // b]: floor division, raising on a zero divisor. *)
Definition floordiv (a b : Z) : res Z :=
  if b =? 0 then Raise ZeroDivisionError else Ok (a / b).

(** [mul_div(a, b, denominator)]: [(a * b) // denominator]. *)
Definition mul_div (a b denominator : Z) : res Z :=
  floordiv (a * b) denominator.

(** ** Tick to square-root price *)

Definition MAX_TICK : Z := 887272.

(** One [if abs_tick & mask: ratio = (ratio * c) >> 128] statement. *)
Definition mul_shift (abs_tick mask c ratio : Z) : Z :=
  if Z.land abs_tick mask =? 0 then ratio else Z.shiftr (ratio * c) 128.

(** The straight-line part of [get_sqrt_ratio_at_tick] between the bounds
    check and the inversion: the running [ratio] after the twenty bit tests. *)
Definition ratio_at_abs_tick (abs_tick : Z) : Z :=
  let ratio :=
    if Z.land abs_tick 0x1 =? 0
    then 0x100000000000000000000000000000000
    else 0xFFFCB933BD6FAD37AA2D162D1A594001 in
  let ratio := mul_shift abs_tick 0x2 0xFFF97272373D413259A46990580E213A ratio in
  let ratio := mul_shift abs_tick 0x4 0xFFF2E50F5F656932EF12357CF3C7FDCC ratio in
  let ratio := mul_shift abs_tick 0x8 0xFFE5CACA7E10E4E61C3624EAA0941CD0 ratio in
  let ratio := mul_shift abs_tick 0x10 0xFFCB9843D60F6159C9DB58835C926644 ratio in
  let ratio := mul_shift abs_tick 0x20 0xFF973B41FA98C081472E6896DFB254C0 ratio in
  let ratio := mul_shift abs_tick 0x40 0xFF2EA16466C96A3843EC78B326B52861 ratio in
  let ratio := mul_shift abs_tick 0x80 0xFE5DEE046A99A2A811C461F1969C3053 ratio in
  let ratio := mul_shift abs_tick 0x100 0xFCBE86C7900A88AEDCFFC83B479AA3A4 ratio in
  let ratio := mul_shift abs_tick 0x200 0xF987A7253AC413176F2B074CF7815E54 ratio in
  let ratio := mul_shift abs_tick 0x400 0xF3392B0822B70005940C7A398E4B70F3 ratio in
  let ratio := mul_shift abs_tick 0x800 0xE7159475A2C29B7443B29C7FA6E889D9 ratio in
  let ratio := mul_shift abs_tick 0x1000 0xD097F3BDFD2022B8845AD8F792AA5825 ratio in
  let ratio := mul_shift abs_tick 0x2000 0xA9F746462D870FDF8A65DC1F90E061E5 ratio in
  let ratio := mul_shift abs_tick 0x4000 0x70D869A156D2A1B890BB3DF62BAF32F7 ratio in
  let ratio := mul_shift abs_tick 0x8000 0x31BE135F97D08FD981231505542FCFA6 ratio in
  let ratio := mul_shift abs_tick 0x10000 0x9AA508B5B7A84E1C677DE54F3E99BC9 ratio in
  let ratio := mul_shift abs_tick 0x20000 0x5D6AF8DEDB81196699C329225EE604 ratio in
  let ratio := mul_shift abs_tick 0x40000 0x2216E584F5FA1EA926041BEDFE98 ratio in
  let ratio := mul_shift abs_tick 0x80000 0x48A170391F7DC42444E8FA2 ratio in
  ratio.

(** The last statement: [(ratio >> 32) + (1 if ratio % (1 << 32) != 0 else 0)]. *)
Definition round_up_shift32 (ratio : Z) : Z :=
  Z.shiftr ratio 32 + (if ratio mod (Z.shiftl 1 32) =? 0 then 0 else 1).

Definition get_sqrt_ratio_at_tick (tick : Z) : res Z :=
  let abs_tick := Z.abs tick in
  if abs_tick >? MAX_TICK then Raise (ValueError "Tick value out of bounds")
  else
    let ratio := ratio_at_abs_tick abs_tick in
    ratio ← (if tick >? 0 then floordiv (Z.shiftl 1 256) ratio else Ok ratio);
    Ok (round_up_shift32 ratio).

(** ** Liquidity to amounts *)

Definition get_amount0_for_liquidity (sqrtRatioAX96 sqrtRatioBX96 liquidity : Z)
  : res Z :=
  let '(sqrtRatioAX96, sqrtRatioBX96) :=
    if sqrtRatioAX96 >? sqrtRatioBX96
    then (sqrtRatioBX96, sqrtRatioAX96)
    else (sqrtRatioAX96, sqrtRatioBX96) in
  q ← mul_div (Z.shiftl liquidity 96) (sqrtRatioBX96 - sqrtRatioAX96) sqrtRatioBX96;
  floordiv q sqrtRatioAX96.

Definition get_amount1_for_liquidity (sqrtRatioAX96 sqrtRatioBX96 liquidity : Z)
  : res Z :=
  let '(sqrtRatioAX96, sqrtRatioBX96) :=
    if sqrtRatioAX96 >? sqrtRatioBX96
    then (sqrtRatioBX96, sqrtRatioAX96)
    else (sqrtRatioAX96, sqrtRatioBX96) in
  mul_div liquidity (sqrtRatioBX96 - sqrtRatioAX96) (2 ^ 96).

Definition get_amounts_from_ticks (tickCurrent tickLower tickUpper liquidity : Z)
  : res (Z * Z) :=
  sqrtRatioX96 ← get_sqrt_ratio_at_tick tickCurrent;
  sqrtRatioAX96 ← get_sqrt_ratio_at_tick tickLower;
  sqrtRatioBX96 ← get_sqrt_ratio_at_tick tickUpper;
  let '(sqrtRatioAX96, sqrtRatioBX96) :=
    if sqrtRatioAX96 >? sqrtRatioBX96
    then (sqrtRatioBX96, sqrtRatioAX96)
    else (sqrtRatioAX96, sqrtRatioBX96) in
  if sqrtRatioX96 <=? sqrtRatioAX96 then
    amount0 ← get_amount0_for_liquidity sqrtRatioAX96 sqrtRatioBX96 liquidity;
    Ok (amount0, 0)
  else if sqrtRatioX96 <? sqrtRatioBX96 then
    amount0 ← get_amount0_for_liquidity sqrtRatioX96 sqrtRatioBX96 liquidity;
    amount1 ← get_amount1_for_liquidity sqrtRatioAX96 sqrtRatioX96 liquidity;
    Ok (amount0, amount1)
  else
    amount1 ← get_amount1_for_liquidity sqrtRatioAX96 sqrtRatioBX96 liquidity;
    Ok (0, amount1).

(** ** The chain reader *)

(** The tuple returned by [positions(tokenId)], as [get_nft_positions_details]
    names its fields. *)
Module Position.
Record details : Type := {
  nonce : Z;
  operator : string;
  token0 : string;
  token1 : string;
  fee : Z;
  tickLower : Z;
  tickUpper : Z;
  liquidity : Z;
  feeGrowthInside0LastX128 : Z;
  feeGrowthInside1LastX128 : Z;
  tokensOwed0 : Z;
  tokensOwed1 : Z
}.
End Position.

(** The tuple returned by [slot0()], as [get_uniswap_slot0] names its fields. *)
Module Slot0.
Record snapshot : Type := {
  sqrtPriceX96 : Z;
  tick : Z;
  observationIndex : Z;
  observationCardinality : Z;
  observationCardinalityNext : Z;
  feeProtocol : Z;
  unlocked : bool
}.
End Slot0.

(** One entry of [POOL_NFT_MAPPINGS]. *)
Module Pool.
Record mapping : Type := {
  name : string;
  pool : string;
  token0 : string;
  token1 : string;
  decimal0 : Z;
  decimal1 : Z
}.
End Pool.

(** A read call made through the web3 client. *)
Inductive call : Type :=
  | PositionsCall (nft_contract_address : string) (token_id : Z)
  | Slot0Call (pool_address : string).

(** What a read call does: it returns the decoded tuple, raises
    [web3.exceptions.ContractLogicError], or raises something else. *)
Inductive outcome (A : Type) : Type :=
  | Returned (a : A)
  | ContractLogicError
  | OtherException (msg : string).

Arguments Returned {A} a.
Arguments ContractLogicError {A}.
Arguments OtherException {A} msg.

(** The [w3] argument.  [Web3.to_checksum_address], [w3.eth.contract] and
    [.call()] are library code: one function per query stands for the three
    together, and its answer may depend on the calls made before. *)
Record web3 : Type := {
  call_positions : list call -> string -> Z -> outcome Position.details;
  call_slot0 : list call -> string -> outcome Slot0.snapshot
}.

(** Code that calls the reader: it runs from the log of the calls made so
    far and returns its result with the extended log. *)
Definition io (A : Type) : Type := list call -> res A * list call.

#[export] Instance io_bind : MBind io := fun A B k m log =>
  match m log with
  | (Ok a, log') => k a log'
  | (Raise e, log') => (Raise e, log')
  end.

#[export] Instance io_ret : MRet io := fun A a log => (Ok a, log).

Definition lift {A : Type} (m : res A) : io A := fun log => (m, log).

(** [try: result = contract.functions.f(...).call()
     except ContractLogicError: return None]. *)
Definition call_or_none {A : Type} (c : call) (o : outcome A) : io (option A) :=
  fun log =>
    match o with
    | Returned a => (Ok (Some a), log ++ [c])
    | ContractLogicError => (Ok None, log ++ [c])
    | OtherException msg => (Raise (Web3Error msg), log ++ [c])
    end.

Definition get_nft_positions_details (nft_contract_address : string) (w3 : web3)
    (token_id : Z) : io (option Position.details) :=
  fun log =>
    call_or_none (PositionsCall nft_contract_address token_id)
      (call_positions w3 log nft_contract_address token_id) log.

Definition get_uniswap_slot0 (pool_address : string) (w3 : web3)
  : io (option Slot0.snapshot) :=
  fun log =>
    call_or_none (Slot0Call pool_address) (call_slot0 w3 log pool_address) log.

(** ** Position aggregation *)

(** [dictionary[key] += value] on a [defaultdict(int)]. *)
Definition add_or_update_dict (dictionary : gmap string Z) (key : string)
    (value : Z) : gmap string Z :=
  <[key := default 0 (dictionary !! key) + value]> dictionary.

(** [str.lower()] on the ASCII strings that addresses are. *)
Definition lower_ascii (c : ascii) : ascii :=
  let n := N_of_ascii c in
  if ((65 <=? n) && (n <=? 90))%N then ascii_of_N (n + 32) else c.

Fixpoint lower (s : string) : string :=
  match s with
  | EmptyString => EmptyString
  | String c s' => String (lower_ascii c) (lower s')
  end.

(** The two entries of the table. *)
Definition wETH_USDC : Pool.mapping :=
  {| Pool.name := "wETH-USDC";
     Pool.pool := "0xd0b53D9277642d899DF5C87A3966A349A798F224";
     Pool.token0 := "0x4200000000000000000000000000000000000006";
     Pool.token1 := "0x833589fCD6eDb6E08f4c7C32D4f71b54bdA02913";
     Pool.decimal0 := 18;
     Pool.decimal1 := 6 |}.

Definition wETH_USDbC : Pool.mapping :=
  {| Pool.name := "wETH-USDbC";
     Pool.pool := "0x4C36388bE6F416A29C8d8Eee81C771cE6bE14B18";
     Pool.token0 := "0x4200000000000000000000000000000000000006";
     Pool.token1 := "0xd9aAEc86B65D86f6A7B5B1b0c42FFA531710b6CA";
     Pool.decimal0 := 18;
     Pool.decimal1 := 6 |}.

Definition POOL_NFT_MAPPINGS : list Pool.mapping := [ wETH_USDC; wETH_USDbC ].

(** The lookup dictionary built from the table, keyed by both orders of the
    lower-cased token pair. *)
Definition build_pool_lookup (pools : list Pool.mapping) : gmap (string * string) Pool.mapping :=
  foldl (fun pool_lookup pool =>
           let token0 := lower (Pool.token0 pool) in
           let token1 := lower (Pool.token1 pool) in
           <[(token1, token0) := pool]> (<[(token0, token1) := pool]> pool_lookup))
        ∅ pools.

Definition pool_lookup : gmap (string * string) Pool.mapping :=
  build_pool_lookup POOL_NFT_MAPPINGS.

(** [enumerate(l, start)]. *)
Fixpoint enumerate {A : Type} (start : nat) (l : list A) : list (nat * A) :=
  match l with
  | [] => []
  | x :: l' => (start, x) :: enumerate (S start) l'
  end.

(** [[index for index, value in enumerate(l) if p(value)]]. *)
Definition indices_where {A : Type} (p : A -> bool) (l : list A) : list nat :=
  (List.filter (fun iv => p iv.2) (enumerate 0 l)).*1.

(** [l[i]] for an index from [enumerate]: out of range raises. *)
Definition item {A : Type} (l : list A) (i : nat) : res A :=
  match l !! i with
  | Some x => Ok x
  | None => Raise IndexError
  end.

(** [for x in l: s = body(s, x)]. *)
Fixpoint for_each {A S : Type} (body : S -> A -> io S) (l : list A) (s : S) : io S :=
  match l with
  | [] => mret s
  | x :: l' => s' ← body s x; for_each body l' s'
  end.

(** [asset_data]: the three parallel lists. *)
Definition asset_data_t : Type := list string * list Z * list Z.

(** The body of [for i in zero_indices]. *)
Definition zero_body (asset_data : asset_data_t) (result : gmap string Z)
    (i : nat) : io (gmap string Z) :=
  address ← lift (item asset_data.1.1 i);
  amount ← lift (item asset_data.2 i);
  mret (add_or_update_dict result address amount).

(** The body of [for i in non_zero_indices]. *)
Definition non_zero_body (asset_data : asset_data_t) (w3 : web3)
    (result : gmap string Z) (i : nat) : io (gmap string Z) :=
  nft_contract ← lift (item asset_data.1.1 i);
  token_id ← lift (item asset_data.1.2 i);
  nft_positions_details ← get_nft_positions_details nft_contract w3 token_id;
  match nft_positions_details with
  | None => mret (add_or_update_dict result nft_contract 0)
  | Some details =>
      let token0 := lower (Position.token0 details) in
      let token1 := lower (Position.token1 details) in
      match pool_lookup !! (token0, token1) with
      | None => mret (add_or_update_dict result nft_contract 0)
      | Some matching_pool =>
          slot0 ← get_uniswap_slot0 (Pool.pool matching_pool) w3;
          match slot0 with
          | None => mret result
          | Some slot0 =>
              let current_tick := Slot0.tick slot0 in
              let lower_tick := Position.tickLower details in
              let upper_tick := Position.tickUpper details in
              amounts ← lift (get_amounts_from_ticks current_tick lower_tick
                                upper_tick (Position.liquidity details));
              let result :=
                add_or_update_dict result (Position.token0 details) amounts.1 in
              mret (add_or_update_dict result (Position.token1 details) amounts.2)
          end
      end
  end.

Definition get_arcadia_account_nft_position (asset_data : asset_data_t)
    (w3 : web3) : io (gmap string Z) :=
  let zero_indices := indices_where (fun value => value =? 0) asset_data.1.2 in
  let non_zero_indices :=
    indices_where (fun value => negb (value =? 0)) asset_data.1.2 in
  let result : gmap string Z := ∅ in
  result ← for_each (zero_body asset_data) zero_indices result;
  for_each (non_zero_body asset_data w3) non_zero_indices result.

(** ** The bit-by-bit view of the ratio computation *)

(** The twenty magic constants, bit 0 first. *)
Definition magic : list Z :=
  [ 0xFFFCB933BD6FAD37AA2D162D1A594001;
    0xFFF97272373D413259A46990580E213A;
    0xFFF2E50F5F656932EF12357CF3C7FDCC;
    0xFFE5CACA7E10E4E61C3624EAA0941CD0;
    0xFFCB9843D60F6159C9DB58835C926644;
    0xFF973B41FA98C081472E6896DFB254C0;
    0xFF2EA16466C96A3843EC78B326B52861;
    0xFE5DEE046A99A2A811C461F1969C3053;
    0xFCBE86C7900A88AEDCFFC83B479AA3A4;
    0xF987A7253AC413176F2B074CF7815E54;
    0xF3392B0822B70005940C7A398E4B70F3;
    0xE7159475A2C29B7443B29C7FA6E889D9;
    0xD097F3BDFD2022B8845AD8F792AA5825;
    0xA9F746462D870FDF8A65DC1F90E061E5;
    0x70D869A156D2A1B890BB3DF62BAF32F7;
    0x31BE135F97D08FD981231505542FCFA6;
    0x9AA508B5B7A84E1C677DE54F3E99BC9;
    0x5D6AF8DEDB81196699C329225EE604;
    0x2216E584F5FA1EA926041BEDFE98;
    0x48A170391F7DC42444E8FA2 ].

(** [2^128], the ratio before any bit is applied. *)
Definition Q128 : Z := 0x100000000000000000000000000000000.

(** [(x * c) >> 128]. *)
Definition scale (c x : Z) : Z := Z.shiftr (x * c) 128.

(** The chain of [mul_shift] statements for the masks [2^k, 2^(k+1), ...]. *)
Fixpoint apply_masks (k : Z) (cs : list Z) (abs_tick x : Z) : Z :=
  match cs with
  | [] => x
  | c :: cs' => apply_masks (k + 1) cs' abs_tick (mul_shift abs_tick (2 ^ k) c x)
  end.

(** The same chain reading the bits of [a] from the lowest one. *)
Fixpoint apply_bits (cs : list Z) (a x : Z) : Z :=
  match cs with
  | [] => x
  | c :: cs' => apply_bits cs' (a / 2) (if Z.odd a then scale c x else x)
  end.

(** Every constant is a fraction of [2^128]. *)
Definition magic_ok (c : Z) : Prop := 0 <= c <= Q128.

(** What is left of a difference [d] when every remaining bit is set. *)
Fixpoint shrink (cs : list Z) (d : Z) : Z :=
  match cs with
  | [] => d
  | c :: cs' => shrink cs' (scale c d)
  end.

(** The check behind strict monotonicity.  [u] is the ratio after a run of
    set low bits; going from [...0 1..1] to [...1 0..0] replaces [u] by the
    constant of the next bit, and the difference must survive all higher
    bits and the final shift by 32. *)
Fixpoint carry_gaps_ok (cs : list Z) (u : Z) : bool :=
  match cs with
  | [] => true
  | c :: cs' =>
      (0 <=? u - scale c Q128) && (2 ^ 32 <=? shrink cs' (u - scale c Q128))
      && carry_gaps_ok cs' (scale c u)
  end.

(** The value [get_sqrt_ratio_at_tick] rounds in its last statement. *)
Definition ratio_at_tick (tick : Z) : Z :=
  if tick >? 0 then Z.shiftl 1 256 / ratio_at_abs_tick (Z.abs tick)
  else ratio_at_abs_tick (Z.abs tick).

Definition in_range (tick : Z) : Prop := - MAX_TICK <= tick <= MAX_TICK.

Definition MIN_SQRT_RATIO : Z := 4295128739.
Definition MAX_SQRT_RATIO : Z := 1461446703485210103287273052203988822378723970342.

(** ** Vocabulary for the statements on aggregation *)

(** The entries of [asset_data]: (address, identifier, amount). *)
Definition entries (asset_data : asset_data_t) : list (string * Z * Z) :=
  zip (zip asset_data.1.1 asset_data.1.2) asset_data.2.

(** The fungible balances: (address, amount) of the entries with identifier
    zero, in order. *)
Fixpoint fungible_entries (es : list (string * Z * Z)) : list (string * Z) :=
  match es with
  | [] => []
  | (address, id, amount) :: es' =>
      if id =? 0 then (address, amount) :: fungible_entries es'
      else fungible_entries es'
  end.

(** The position tokens: (address, identifier) of the entries with a
    non-zero identifier, in order. *)
Fixpoint position_entries (es : list (string * Z * Z)) : list (string * Z) :=
  match es with
  | [] => []
  | (address, id, amount) :: es' =>
      if id =? 0 then position_entries es'
      else (address, id) :: position_entries es'
  end.

(** The sum of the amounts listed under [address]. *)
Fixpoint total_under (address : string) (l : list (string * Z)) : Z :=
  match l with
  | [] => 0
  | (key, amount) :: l' =>
      if decide (key = address) then amount + total_under address l'
      else total_under address l'
  end.

(** A table entry matches a token pair when the lower-cased tokens agree in
    one of the two orders. *)
Definition pair_matches (pool : Pool.mapping) (token0 token1 : string) : Prop :=
  (lower token0 = lower (Pool.token0 pool) /\ lower token1 = lower (Pool.token1 pool))
  \/ (lower token0 = lower (Pool.token1 pool) /\ lower token1 = lower (Pool.token0 pool)).

Definition unmapped (token0 token1 : string) : Prop :=
  forall pool, pool ∈ POOL_NFT_MAPPINGS -> ~ pair_matches pool token0 token1.

(** The two recoverable failures of a position token: the position lookup
    raises [ContractLogicError], or it returns a token pair that the table
    does not know. *)
Definition degrades (w3 : web3) (log : list call) (nft_contract : string)
    (token_id : Z) : Prop :=
  call_positions w3 log nft_contract token_id = ContractLogicError
  \/ exists details,
       call_positions w3 log nft_contract token_id = Returned details /\
       unmapped (Position.token0 details) (Position.token1 details).

(** ** Sample inputs *)

(** The sample of the docstring of [get_arcadia_account_nft_position]. *)
Definition sample_asset_data : asset_data_t :=
  ([ "0x2Ae3F1Ec7F1F5012CFEab0185bfc7aa3cf0DEc22";
     "0x4200000000000000000000000000000000000006";
     "0x03a520b32C04BF3bEEf7BEb72E919cf822Ed34f1" ],
   [ 0; 0; 105363 ],
   [ 12289573077240346; 13102161708949451; 1 ]).

(** A chain on which no contract answers either query. *)
Definition w3_no_contract : web3 :=
  {| call_positions := fun _ _ _ => ContractLogicError;
     call_slot0 := fun _ _ => ContractLogicError |}.

(** A wETH/USDC position whose tokens come back in checksum case. *)
Definition sample_position : Position.details :=
  {| Position.nonce := 0;
     Position.operator := "0x0000000000000000000000000000000000000000";
     Position.token0 := "0x4200000000000000000000000000000000000006";
     Position.token1 := "0x833589fCD6eDb6E08f4c7C32D4f71b54bdA02913";
     Position.fee := 500;
     Position.tickLower := -100;
     Position.tickUpper := 100;
     Position.liquidity := 10 ^ 18;
     Position.feeGrowthInside0LastX128 := 0;
     Position.feeGrowthInside1LastX128 := 0;
     Position.tokensOwed0 := 0;
     Position.tokensOwed1 := 0 |}.

(** A chain that knows the position but cannot read the state of any pool. *)
Definition w3_no_pool_state : web3 :=
  {| call_positions := fun _ _ _ => Returned sample_position;
     call_slot0 := fun _ _ => ContractLogicError |}.

(** ** Closed forms of the amounts *)

(** Token0 held by liquidity [L] between the ordered prices [lo <= hi], as
    one division. *)
Definition amount0_of (lo hi L : Z) : Z := L * 2 ^ 96 * (hi - lo) / (lo * hi).

(** Token1 held by liquidity [L] between the ordered prices [lo <= hi]. *)
Definition amount1_of (lo hi L : Z) : Z := L * (hi - lo) / 2 ^ 96.

(** ** Vocabulary for the reads of an aggregation *)



(** ** More sample inputs *)

(** A pool state at tick 0. *)
Definition sample_slot0 : Slot0.snapshot :=
  {| Slot0.sqrtPriceX96 := 2 ^ 96;
     Slot0.tick := 0;
     Slot0.observationIndex := 0;
     Slot0.observationCardinality := 1;
     Slot0.observationCardinalityNext := 1;
     Slot0.feeProtocol := 0;
     Slot0.unlocked := true |}.

(** A chain that knows the sample position and reads every pool at tick 0. *)
Definition w3_sample : web3 :=
  {| call_positions := fun _ _ _ => Returned sample_position;
     call_slot0 := fun _ _ => Returned sample_slot0 |}.

(** A pool state with a tick beyond the legal bound. *)
Definition bad_slot0 : Slot0.snapshot :=
  {| Slot0.sqrtPriceX96 := 0;
     Slot0.tick := 887273;
     Slot0.observationIndex := 0;
     Slot0.observationCardinality := 1;
     Slot0.observationCardinalityNext := 1;
     Slot0.feeProtocol := 0;
     Slot0.unlocked := true |}.

(** A chain whose pools report that state. *)
Definition w3_bad_tick : web3 :=
  {| call_positions := fun _ _ _ => Returned sample_position;
     call_slot0 := fun _ _ => Returned bad_slot0 |}.

(** A chain whose node cannot be reached. *)
Definition w3_unreachable : web3 :=
  {| call_positions := fun _ _ _ => OtherException "connection refused";
     call_slot0 := fun _ _ => OtherException "connection refused" |}.

(** A chain that knows the sample position but cannot be reached for pool
    state. *)
Definition w3_slot0_unreachable : web3 :=
  {| call_positions := fun _ _ _ => Returned sample_position;
     call_slot0 := fun _ _ => OtherException "connection refused" |}.

(** A read fails when it raises, whatever the exception. *)
Definition read_fails {A : Type} (o : outcome A) : Prop :=
  match o with
  | Returned _ => False
  | ContractLogicError => True
  | OtherException _ => True
  end.

(** An account holding two position tokens of one contract. *)
Definition two_positions_asset_data : asset_data_t :=
  ([ "0x03a520b32C04BF3bEEf7BEb72E919cf822Ed34f1";
     "0x03a520b32C04BF3bEEf7BEb72E919cf822Ed34f1" ],
   [ 105363; 105364 ],
   [ 1; 1 ]).

(** * Proofs *)

(** Range side conditions on concrete or bounded ticks. *)
Ltac solve_in_range := unfold in_range, MAX_TICK in *; lia.

(** Unfolds the sequencing of reader code down to its pairs. *)
Ltac run_io := unfold mbind, io_bind, lift, mret, io_ret.

(** ** The functions on concrete inputs *)

Example sqrt_ratio_at_min_tick :
  get_sqrt_ratio_at_tick (-887272) = Ok MIN_SQRT_RATIO.
Proof. vm_compute. reflexivity. Qed.

Example sqrt_ratio_at_max_tick :
  get_sqrt_ratio_at_tick 887272 = Ok MAX_SQRT_RATIO.
Proof. vm_compute. reflexivity. Qed.

Example sqrt_ratio_at_tick_1 :
  get_sqrt_ratio_at_tick 1 = Ok 79232123823359799118286999568.
Proof. vm_compute. reflexivity. Qed.

Example amounts_below_range :
  get_amounts_from_ticks (-200) (-100) 100 (10 ^ 18) = Ok (9999541693800299, 0).
Proof. vm_compute. reflexivity. Qed.

Example amounts_inside_range :
  get_amounts_from_ticks 0 (-100) 100 (10 ^ 18)
  = Ok (4987272070749096, 4987272070749096).
Proof. vm_compute. reflexivity. Qed.

Example amounts_above_range :
  get_amounts_from_ticks 200 (-100) 100 (10 ^ 18) = Ok (0, 9999541693800299).
Proof. vm_compute. reflexivity. Qed.

Example amounts_swapped_range :
  get_amounts_from_ticks 200 100 (-100) (10 ^ 18) = Ok (0, 9999541693800299).
Proof. vm_compute. reflexivity. Qed.

Example lower_checksum_address :
  lower "0xd9aAEc86B65D86f6A7B5B1b0c42FFA531710b6CA"
  = "0xd9aaec86b65d86f6a7b5b1b0c42ffa531710b6ca".
Proof. reflexivity. Qed.

Example pool_lookup_reversed_pair :
  pool_lookup !! ("0x833589fcd6edb6e08f4c7c32d4f71b54bda02913",
                  "0x4200000000000000000000000000000000000006")
  = Some wETH_USDC.
Proof. vm_compute. reflexivity. Qed.

Example indices_of_sample :
  indices_where (fun value => value =? 0) sample_asset_data.1.2 = [0%nat; 1%nat]
  /\ indices_where (fun value => negb (value =? 0)) sample_asset_data.1.2 = [2%nat].
Proof. split; reflexivity. Qed.

(** ** Arithmetic of one multiply-and-shift *)

Lemma scale_div c x : scale c x = x * c / 2 ^ 128.
Proof. unfold scale. now rewrite Z.shiftr_div_pow2 by lia. Qed.

Section Scale.

Variable c : Z.
Hypothesis c_ok : magic_ok c.

Lemma scale_nonneg x : 0 <= x -> 0 <= scale c x.
Proof. destruct c_ok as [Hc _]. intros Hx. rewrite scale_div. apply Z.div_pos; nia. Qed.

Lemma scale_le x : 0 <= x -> scale c x <= x.
Proof.
  destruct c_ok as [Hc Hc']. intros Hx. rewrite scale_div.
  apply Z.div_le_upper_bound; [lia|]. unfold Q128 in Hc'. nia.
Qed.

Lemma scale_mono x y : x <= y -> scale c x <= scale c y.
Proof.
  destruct c_ok as [Hc _]. intros Hxy. rewrite !scale_div.
  apply Z.div_le_mono; [lia | nia].
Qed.

(** Floor division is superadditive: inputs that are [d] apart give
    outputs that are at least [scale c d] apart. *)
Lemma scale_gap x y d : y + d <= x -> scale c y + scale c d <= scale c x.
Proof.
  destruct c_ok as [Hc _]. intros Hd. rewrite !scale_div.
  assert (Hle : y * c + d * c <= x * c) by nia.
  apply (Z.div_le_mono _ _ (2 ^ 128)) in Hle; [|lia].
  pose proof (Z.div_mod (y * c) (2 ^ 128)) as Hy.
  pose proof (Z.div_mod (d * c) (2 ^ 128)) as Hdc.
  pose proof (Z.div_mod (y * c + d * c) (2 ^ 128)) as Hs.
  pose proof (Z.mod_pos_bound (y * c) (2 ^ 128)).
  pose proof (Z.mod_pos_bound (d * c) (2 ^ 128)).
  pose proof (Z.mod_pos_bound (y * c + d * c) (2 ^ 128)).
  lia.
Qed.

End Scale.

(** ** Differences between runs over the same bits *)

Lemma shrink_nonneg cs d : Forall magic_ok cs -> 0 <= d -> 0 <= shrink cs d.
Proof.
  intros Hcs. revert d. induction Hcs as [|c cs Hc _ IH]; intros d Hd; simpl.
  - trivial.
  - now apply IH, scale_nonneg.
Qed.

(** Two runs over the same bits keep their inputs apart. *)
Lemma apply_bits_gap cs :
  Forall magic_ok cs ->
  forall a x y d, 0 <= d -> y + d <= x ->
    apply_bits cs a y + shrink cs d <= apply_bits cs a x.
Proof.
  induction 1 as [|c cs Hc Hcs IH]; intros a x y d Hd Hxy; simpl.
  - trivial.
  - destruct (Z.odd a).
    + apply IH; [now apply scale_nonneg | now apply scale_gap].
    + pose proof (scale_le c Hc d Hd) as Hle.
      pose proof (scale_nonneg c Hc d Hd) as Hnn.
      apply (IH (a / 2) x y (scale c d) Hnn). lia.
Qed.

Lemma half_succ_odd a : Z.odd a = true -> (a + 1) / 2 = a / 2 + 1.
Proof.
  intros Hodd. rewrite (Zdiv2_odd_eqn a), Hodd.
  replace (2 * Z.div2 a + 1 + 1) with ((Z.div2 a + 1) * 2) by lia.
  rewrite Z.div_mul by lia.
  replace (2 * Z.div2 a + 1) with (1 + Z.div2 a * 2) by lia.
  now rewrite Z.div_add by lia.
Qed.

Lemma half_succ_even a : Z.odd a = false -> (a + 1) / 2 = a / 2.
Proof.
  intros Hodd. rewrite (Zdiv2_odd_eqn a), Hodd.
  replace (2 * Z.div2 a + 0 + 1) with (1 + Z.div2 a * 2) by lia.
  rewrite Z.div_add by lia.
  replace (2 * Z.div2 a + 0) with (Z.div2 a * 2) by lia.
  now rewrite Z.div_mul by lia.
Qed.

(** Soundness of the check: consecutive bit patterns give ratios at least
    [2^32] apart. *)
Lemma carry_gaps_sound cs :
  Forall magic_ok cs ->
  forall u a, carry_gaps_ok cs u = true ->
    0 <= a -> a + 1 < 2 ^ Z.of_nat (length cs) ->
    apply_bits cs (a + 1) Q128 + 2 ^ 32 <= apply_bits cs a u.
Proof.
  induction 1 as [|c cs Hc Hcs IH]; intros u a Hok Ha Hlt.
  - simpl in Hlt. lia.
  - cbn [carry_gaps_ok] in Hok.
    apply andb_prop in Hok as [Hok Hrec]. apply andb_prop in Hok as [Hd Hgap].
    apply Z.leb_le in Hd, Hgap.
    cbn [apply_bits].
    rewrite Z.odd_add. cbn [Z.odd xorb].
    destruct (Z.odd a) eqn:Hodd; cbn [xorb].
    + (* a = 2h+1: the carry moves on to the next bit *)
      rewrite (half_succ_odd a Hodd).
      apply IH; [trivial | apply Z.div_pos; lia |].
      rewrite length_cons, Nat2Z.inj_succ, Z.pow_succ_r in Hlt by lia.
      pose proof (Z.div_lt_upper_bound (a + 1) 2 (2 ^ Z.of_nat (length cs))
                    ltac:(lia) Hlt) as Hhalf.
      rewrite (half_succ_odd a Hodd) in Hhalf. exact Hhalf.
    + (* a = 2h: only this bit changes *)
      rewrite (half_succ_even a Hodd).
      pose proof (apply_bits_gap cs Hcs (a / 2) u (scale c Q128)
                    (u - scale c Q128) Hd ltac:(lia)).
      lia.
Qed.

(** ** From the masks of the source to the bits of the tick *)

Lemma land_pow2_eqb a k :
  0 <= k -> (Z.land a (2 ^ k) =? 0) = negb (Z.odd (a / 2 ^ k)).
Proof.
  intros Hk.
  rewrite <- Z.shiftr_div_pow2, <- Z.testbit_odd by lia.
  assert (Hland : Z.land a (2 ^ k) = if Z.testbit a k then 2 ^ k else 0).
  { apply Z.bits_inj'. intros n Hn.
    rewrite Z.land_spec, Z.pow2_bits_eqb by lia.
    destruct (Z.eqb_spec k n) as [->|Hne].
    - destruct (Z.testbit a n); cbn [andb]; [|now rewrite Z.bits_0].
      now rewrite Z.pow2_bits_eqb, Z.eqb_refl by lia.
    - rewrite andb_false_r.
      destruct (Z.testbit a k); [|now rewrite Z.bits_0].
      rewrite Z.pow2_bits_eqb by lia. symmetry. now apply Z.eqb_neq. }
  rewrite Hland. destruct (Z.testbit a k); cbn [negb].
  - apply Z.eqb_neq. pose proof (Z.pow_pos_nonneg 2 k). lia.
  - reflexivity.
Qed.

Lemma mul_shift_odd a k c x :
  0 <= k -> mul_shift a (2 ^ k) c x = if Z.odd (a / 2 ^ k) then scale c x else x.
Proof.
  intros Hk. unfold mul_shift. rewrite land_pow2_eqb by trivial.
  now destruct (Z.odd _).
Qed.

Lemma apply_masks_bits cs :
  forall k a x, 0 <= k -> apply_masks k cs a x = apply_bits cs (a / 2 ^ k) x.
Proof.
  induction cs as [|c cs IH]; intros k a x Hk; cbn [apply_masks apply_bits].
  - reflexivity.
  - rewrite mul_shift_odd, IH by lia. f_equal.
    rewrite Z.pow_add_r, Z.pow_1_r by lia.
    rewrite Z.div_div; [reflexivity | | lia].
    pose proof (Z.pow_pos_nonneg 2 k). lia.
Qed.

Lemma ratio_at_abs_tick_masks a : ratio_at_abs_tick a = apply_masks 0 magic a Q128.
Proof. reflexivity. Qed.

Lemma ratio_at_abs_tick_bits a : ratio_at_abs_tick a = apply_bits magic a Q128.
Proof.
  rewrite ratio_at_abs_tick_masks, apply_masks_bits by lia.
  now rewrite Z.pow_0_r, Z.div_1_r.
Qed.

Lemma magic_all_ok : Forall magic_ok magic.
Proof. unfold magic. repeat (constructor; [unfold magic_ok, Q128; lia|]). constructor. Qed.

Lemma magic_carry_gaps : carry_gaps_ok magic Q128 = true.
Proof. vm_compute. reflexivity. Qed.

(** Consecutive absolute ticks: the ratio drops by at least [2^32]. *)
Lemma ratio_at_abs_tick_step a :
  0 <= a -> a + 1 < 2 ^ 20 ->
  ratio_at_abs_tick (a + 1) + 2 ^ 32 <= ratio_at_abs_tick a.
Proof.
  intros Ha Hlt. rewrite !ratio_at_abs_tick_bits.
  apply carry_gaps_sound; [apply magic_all_ok | apply magic_carry_gaps | trivial | trivial].
Qed.

Lemma ratio_at_abs_tick_chain a n :
  0 <= a -> 0 <= n -> a + n < 2 ^ 20 ->
  ratio_at_abs_tick (a + n) + n * 2 ^ 32 <= ratio_at_abs_tick a.
Proof.
  intros Ha Hn. revert n Hn. apply (natlike_ind (fun n => a + n < 2 ^ 20 ->
    ratio_at_abs_tick (a + n) + n * 2 ^ 32 <= ratio_at_abs_tick a)).
  - intros _. rewrite (Z.add_0_r a). lia.
  - intros n Hn IH Hlt.
    pose proof (ratio_at_abs_tick_step (a + n) ltac:(lia) ltac:(lia)) as Hstep.
    replace (a + Z.succ n) with (a + n + 1) by lia.
    specialize (IH ltac:(lia)). lia.
Qed.

Lemma ratio_at_abs_tick_antitone a b :
  0 <= a <= b -> b < 2 ^ 20 ->
  ratio_at_abs_tick b + (b - a) * 2 ^ 32 <= ratio_at_abs_tick a.
Proof.
  intros [Ha Hab] Hb.
  pose proof (ratio_at_abs_tick_chain a (b - a) Ha ltac:(lia) ltac:(lia)) as H.
  now replace (a + (b - a)) with b in H by lia.
Qed.

Lemma ratio_at_abs_tick_bounds a :
  0 <= a <= MAX_TICK -> 0 < ratio_at_abs_tick a <= Q128.
Proof.
  unfold MAX_TICK. intros [Ha Hmax]. split.
  - pose proof (ratio_at_abs_tick_antitone a 887272 ltac:(lia) ltac:(lia)) as H.
    assert (Hlow : ratio_at_abs_tick 887272 = 18447437462383981825).
    { vm_compute. reflexivity. }
    rewrite Hlow in H. lia.
  - pose proof (ratio_at_abs_tick_antitone 0 a ltac:(lia) ltac:(lia)) as H.
    assert (Htop : ratio_at_abs_tick 0 = Q128) by (vm_compute; reflexivity).
    rewrite Htop in H. lia.
Qed.

(** ** Inversion and final rounding *)

(** [2^256 // ratio] turns a drop of [2^32] into a rise of at least [2^32]. *)
Lemma invert_gap x y :
  0 < y -> y + 2 ^ 32 <= x -> x <= Q128 ->
  Z.shiftl 1 256 / x + 2 ^ 32 <= Z.shiftl 1 256 / y.
Proof.
  intros Hy Hxy Hx. unfold Q128 in Hx.
  change (Z.shiftl 1 256) with (2 ^ 128 * 2 ^ 128).
  apply Z.div_le_lower_bound; [lia|].
  assert (Hq : 2 ^ 128 <= 2 ^ 128 * 2 ^ 128 / x).
  { apply Z.div_le_lower_bound; nia. }
  pose proof (Z.mul_div_le (2 ^ 128 * 2 ^ 128) x ltac:(lia)) as Hm.
  set (q := 2 ^ 128 * 2 ^ 128 / x) in *.
  nia.
Qed.

Lemma round_up_shift32_strict x y :
  x + 2 ^ 32 <= y -> round_up_shift32 x < round_up_shift32 y.
Proof.
  unfold round_up_shift32. intros Hxy.
  rewrite !Z.shiftr_div_pow2 by lia. change (Z.shiftl 1 32) with (2 ^ 32).
  destruct (Z.eqb_spec (x mod 2 ^ 32) 0), (Z.eqb_spec (y mod 2 ^ 32) 0);
    Z.to_euclidean_division_equations; lia.
Qed.

Lemma round_up_shift32_pos x : 0 < x -> 0 < round_up_shift32 x.
Proof.
  unfold round_up_shift32. intros Hx.
  rewrite Z.shiftr_div_pow2 by lia. change (Z.shiftl 1 32) with (2 ^ 32).
  destruct (Z.eqb_spec (x mod 2 ^ 32) 0);
    Z.to_euclidean_division_equations; lia.
Qed.

(** ** The square-root price as a function of the tick *)

Lemma get_sqrt_ratio_at_tick_in_range tick :
  in_range tick ->
  get_sqrt_ratio_at_tick tick = Ok (round_up_shift32 (ratio_at_tick tick)).
Proof.
  unfold in_range, get_sqrt_ratio_at_tick, ratio_at_tick. intros Hr.
  destruct (Z.gtb_spec (Z.abs tick) MAX_TICK) as [Hgt|_]; [lia|].
  cbn zeta. destruct (tick >? 0); [|reflexivity].
  unfold floordiv.
  pose proof (ratio_at_abs_tick_bounds (Z.abs tick) ltac:(lia)) as [Hpos _].
  destruct (Z.eqb_spec (ratio_at_abs_tick (Z.abs tick)) 0); [lia | reflexivity].
Qed.

Lemma get_sqrt_ratio_at_tick_out_of_range tick :
  ~ in_range tick ->
  get_sqrt_ratio_at_tick tick = Raise (ValueError "Tick value out of bounds").
Proof.
  unfold in_range, get_sqrt_ratio_at_tick. intros Hr.
  destruct (Z.gtb_spec (Z.abs tick) MAX_TICK) as [_|Hle]; [reflexivity | lia].
Qed.

Lemma ratio_at_tick_step tick :
  - MAX_TICK <= tick < MAX_TICK ->
  ratio_at_tick tick + 2 ^ 32 <= ratio_at_tick (tick + 1).
Proof.
  unfold MAX_TICK. intros Hr. unfold ratio_at_tick.
  destruct (Z.gtb_spec (tick + 1) 0) as [Hpos|Hneg].
  - (* 0 <= tick: both values are inverted (at tick 0 inverting 2^128 changes nothing) *)
    assert (Hinv : (if tick >? 0 then Z.shiftl 1 256 / ratio_at_abs_tick (Z.abs tick)
                    else ratio_at_abs_tick (Z.abs tick))
                   = Z.shiftl 1 256 / ratio_at_abs_tick (Z.abs tick)).
    { destruct (Z.gtb_spec tick 0); [reflexivity|].
      replace tick with 0 by lia. vm_compute. reflexivity. }
    rewrite Hinv. rewrite !Z.abs_eq by lia.
    pose proof (ratio_at_abs_tick_step tick ltac:(lia) ltac:(lia)) as Hstep.
    pose proof (ratio_at_abs_tick_bounds tick ltac:(unfold MAX_TICK; lia)) as [_ Htop].
    pose proof (ratio_at_abs_tick_bounds (tick + 1) ltac:(unfold MAX_TICK; lia)) as [Hlow _].
    apply invert_gap; trivial.
  - destruct (Z.gtb_spec tick 0); [lia|].
    rewrite !Z.abs_neq by lia.
    pose proof (ratio_at_abs_tick_step (- (tick + 1)) ltac:(lia) ltac:(lia)) as Hstep.
    now replace (- (tick + 1) + 1) with (- tick) in Hstep by lia.
Qed.

Lemma ratio_at_tick_chain tick n :
  0 <= n -> - MAX_TICK <= tick -> tick + n <= MAX_TICK ->
  ratio_at_tick tick + n * 2 ^ 32 <= ratio_at_tick (tick + n).
Proof.
  intros Hn Hlo. revert n Hn.
  apply (natlike_ind (fun n => tick + n <= MAX_TICK ->
    ratio_at_tick tick + n * 2 ^ 32 <= ratio_at_tick (tick + n))).
  - intros _. rewrite (Z.add_0_r tick). lia.
  - intros n Hn IH Hhi.
    pose proof (ratio_at_tick_step (tick + n) ltac:(lia)) as Hstep.
    replace (tick + Z.succ n) with (tick + n + 1) by lia.
    specialize (IH ltac:(lia)). lia.
Qed.

(** Strict monotonicity of the rounded value, the shared core of the
    statements below. *)
Lemma sqrt_ratio_increasing t1 t2 :
  in_range t1 -> in_range t2 -> t1 < t2 ->
  round_up_shift32 (ratio_at_tick t1) < round_up_shift32 (ratio_at_tick t2).
Proof.
  unfold in_range. intros H1 H2 Hlt.
  apply round_up_shift32_strict.
  pose proof (ratio_at_tick_chain t1 (t2 - t1) ltac:(lia) ltac:(lia) ltac:(lia)) as H.
  replace (t1 + (t2 - t1)) with t2 in H by lia. nia.
Qed.

Lemma sqrt_ratio_bounds tick :
  in_range tick ->
  MIN_SQRT_RATIO <= round_up_shift32 (ratio_at_tick tick) <= MAX_SQRT_RATIO.
Proof.
  intros Hr.
  assert (Hmin : round_up_shift32 (ratio_at_tick (- MAX_TICK)) = MIN_SQRT_RATIO)
    by (vm_compute; reflexivity).
  assert (Hmax : round_up_shift32 (ratio_at_tick MAX_TICK) = MAX_SQRT_RATIO)
    by (vm_compute; reflexivity).
  assert (Hlo : in_range (- MAX_TICK)) by (unfold in_range, MAX_TICK; lia).
  assert (Hhi : in_range MAX_TICK) by (unfold in_range, MAX_TICK; lia).
  unfold in_range in Hr. split.
  - destruct (Z.eq_dec tick (- MAX_TICK)) as [->|Hne]; [lia|].
    pose proof (sqrt_ratio_increasing (- MAX_TICK) tick Hlo Hr ltac:(lia)). lia.
  - destruct (Z.eq_dec tick MAX_TICK) as [->|Hne]; [lia|].
    pose proof (sqrt_ratio_increasing tick MAX_TICK Hr Hhi ltac:(lia)). lia.
Qed.

(** ** Amounts: normalisation and totality *)

Lemma floordiv_ok a b : b <> 0 -> floordiv a b = Ok (a / b).
Proof. intros Hb. unfold floordiv. now destruct (Z.eqb_spec b 0). Qed.

(** Both amount functions work on the ordered pair of their arguments. *)
Lemma get_amount0_for_liquidity_ordered A B L :
  get_amount0_for_liquidity A B L =
    (q ← mul_div (Z.shiftl L 96) (Z.max A B - Z.min A B) (Z.max A B);
     floordiv q (Z.min A B)).
Proof.
  unfold get_amount0_for_liquidity.
  destruct (Z.gtb_spec A B).
  - now rewrite Z.max_l, Z.min_r by lia.
  - now rewrite Z.max_r, Z.min_l by lia.
Qed.

Lemma get_amount1_for_liquidity_ordered A B L :
  get_amount1_for_liquidity A B L = Ok (L * (Z.max A B - Z.min A B) / 2 ^ 96).
Proof.
  unfold get_amount1_for_liquidity, mul_div.
  destruct (Z.gtb_spec A B).
  - rewrite Z.max_l, Z.min_r by lia. now apply floordiv_ok.
  - rewrite Z.max_r, Z.min_l by lia. now apply floordiv_ok.
Qed.

Lemma get_amount0_for_liquidity_nonzero A B L :
  A <> 0 -> B <> 0 ->
  get_amount0_for_liquidity A B L =
    Ok (Z.shiftl L 96 * (Z.max A B - Z.min A B) / Z.max A B / Z.min A B).
Proof.
  intros HA HB. rewrite get_amount0_for_liquidity_ordered. unfold mul_div.
  rewrite floordiv_ok by lia. cbn. apply floordiv_ok. lia.
Qed.

Lemma get_amount0_for_liquidity_same A L :
  A <> 0 -> get_amount0_for_liquidity A A L = Ok 0.
Proof.
  intros HA. rewrite get_amount0_for_liquidity_nonzero by trivial.
  rewrite Z.max_id, Z.min_id, Z.sub_diag, Z.mul_0_r.
  now rewrite !Z.div_0_l by trivial.
Qed.

Lemma get_amount1_for_liquidity_same A L : get_amount1_for_liquidity A A L = Ok 0.
Proof.
  rewrite get_amount1_for_liquidity_ordered.
  now rewrite Z.max_id, Z.min_id, Z.sub_diag, Z.mul_0_r.
Qed.

(** The square-root price of an in-range tick, with its bounds. *)
Lemma get_sqrt_ratio_at_tick_value tick :
  in_range tick ->
  exists s, get_sqrt_ratio_at_tick tick = Ok s /\
            MIN_SQRT_RATIO <= s <= MAX_SQRT_RATIO.
Proof.
  intros Hr. exists (round_up_shift32 (ratio_at_tick tick)). split.
  - now apply get_sqrt_ratio_at_tick_in_range.
  - now apply sqrt_ratio_bounds.
Qed.

(** ** The claims on the fixed-point library *)

(** C1: for in-range ticks, [get_amounts_from_ticks] follows the three
    regimes.  With [lo] and [hi] the smaller and the larger of the two range
    square-root prices: a current price [<= lo] gives
    [(get_amount0_for_liquidity lo hi L, 0)]; a current price strictly between
    gives [(get_amount0_for_liquidity current hi L,
    get_amount1_for_liquidity lo current L)]; a current price [>= hi] gives
    [(0, get_amount1_for_liquidity lo hi L)].  For the range [-100, 100] and
    liquidity [10^18] the result is token0 only at tick [-200], both tokens at
    tick [0] and token1 only at tick [200]. *)
Theorem get_amounts_from_ticks_regimes :
  (forall tickCurrent tickLower tickUpper L,
     in_range tickCurrent -> in_range tickLower -> in_range tickUpper ->
     exists current lower upper,
       get_sqrt_ratio_at_tick tickCurrent = Ok current /\
       get_sqrt_ratio_at_tick tickLower = Ok lower /\
       get_sqrt_ratio_at_tick tickUpper = Ok upper /\
       let lo := Z.min lower upper in
       let hi := Z.max lower upper in
       (current <= lo ->
        exists amount0,
          get_amount0_for_liquidity lo hi L = Ok amount0 /\
          get_amounts_from_ticks tickCurrent tickLower tickUpper L
            = Ok (amount0, 0)) /\
       (lo < current < hi ->
        exists amount0 amount1,
          get_amount0_for_liquidity current hi L = Ok amount0 /\
          get_amount1_for_liquidity lo current L = Ok amount1 /\
          get_amounts_from_ticks tickCurrent tickLower tickUpper L
            = Ok (amount0, amount1)) /\
       (hi <= current ->
        exists amount1,
          get_amount1_for_liquidity lo hi L = Ok amount1 /\
          get_amounts_from_ticks tickCurrent tickLower tickUpper L
            = Ok (0, amount1)))
  /\ (exists amount0,
        get_amounts_from_ticks (-200) (-100) 100 (10 ^ 18) = Ok (amount0, 0)
        /\ 0 < amount0)
  /\ (exists amount0 amount1,
        get_amounts_from_ticks 0 (-100) 100 (10 ^ 18) = Ok (amount0, amount1)
        /\ 0 < amount0 /\ 0 < amount1)
  /\ (exists amount1,
        get_amounts_from_ticks 200 (-100) 100 (10 ^ 18) = Ok (0, amount1)
        /\ 0 < amount1).
Proof.
  split; [|split; [|split]].
  - intros tc tl tu L Hc Hl Hu.
    destruct (get_sqrt_ratio_at_tick_value tc Hc) as (c & Ec & Hcb).
    destruct (get_sqrt_ratio_at_tick_value tl Hl) as (l & El & Hlb).
    destruct (get_sqrt_ratio_at_tick_value tu Hu) as (u & Eu & Hub).
    exists c, l, u. repeat (split; [assumption|]).
    unfold MIN_SQRT_RATIO in *.
    assert (Hrun : get_amounts_from_ticks tc tl tu L =
      if c <=? Z.min l u then
        amount0 ← get_amount0_for_liquidity (Z.min l u) (Z.max l u) L;
        Ok (amount0, 0)
      else if c <? Z.max l u then
        amount0 ← get_amount0_for_liquidity c (Z.max l u) L;
        amount1 ← get_amount1_for_liquidity (Z.min l u) c L;
        Ok (amount0, amount1)
      else
        amount1 ← get_amount1_for_liquidity (Z.min l u) (Z.max l u) L;
        Ok (0, amount1)).
    { unfold get_amounts_from_ticks. rewrite Ec, El, Eu. cbn.
      destruct (Z.gtb_spec l u).
      - now rewrite Z.max_l, Z.min_r by lia.
      - now rewrite Z.max_r, Z.min_l by lia. }
    cbv zeta. rewrite Hrun. clear Hrun.
    set (lo := Z.min l u). set (hi := Z.max l u).
    assert (Hlo : 0 < lo) by (unfold lo; lia).
    assert (Hhi : lo <= hi) by (unfold lo, hi; lia).
    split; [|split].
    + intros Hle. destruct (Z.leb_spec c lo); [|lia].
      rewrite (get_amount0_for_liquidity_nonzero lo hi) by lia.
      eexists. split; reflexivity.
    + intros [Hlt1 Hlt2]. destruct (Z.leb_spec c lo); [lia|].
      destruct (Z.ltb_spec c hi); [|lia].
      rewrite (get_amount0_for_liquidity_nonzero c hi) by lia.
      rewrite (get_amount1_for_liquidity_ordered lo c).
      eexists _, _. repeat split; reflexivity.
    + intros Hge. rewrite (get_amount1_for_liquidity_ordered lo hi).
      eexists. split; [reflexivity|].
      destruct (Z.leb_spec c lo).
      * (* the range is a single price and the current price sits on it *)
        assert (lo = hi) as <- by lia.
        rewrite get_amount0_for_liquidity_same by lia.
        now rewrite Z.max_id, Z.min_id, Z.sub_diag, Z.mul_0_r.
      * destruct (Z.ltb_spec c hi); [lia | reflexivity].
  - eexists. split; [vm_compute; reflexivity | reflexivity].
  - eexists _, _. split; [vm_compute; reflexivity | split; reflexivity].
  - eexists. split; [vm_compute; reflexivity | reflexivity].
Qed.

Lemma get_amounts_from_ticks_regimes_witness :
  (exists amount0,
     get_amounts_from_ticks (-200) (-100) 100 (10 ^ 18) = Ok (amount0, 0))
  /\ (exists amount0 amount1,
        get_amounts_from_ticks 0 (-100) 100 (10 ^ 18) = Ok (amount0, amount1))
  /\ (exists amount1,
        get_amounts_from_ticks 200 (-100) 100 (10 ^ 18) = Ok (0, amount1)).
Proof.
  split; [|split].
  - destruct (proj1 get_amounts_from_ticks_regimes (-200) (-100) 100 (10 ^ 18))
      as (c & l & u & Ec & El & Eu & Hlow & _ & _);
      [solve_in_range .. |].
    vm_compute in Ec, El, Eu.
    injection Ec as <-. injection El as <-. injection Eu as <-.
    destruct Hlow as (amount0 & _ & E); [lia|]. exists amount0. exact E.
  - destruct (proj1 get_amounts_from_ticks_regimes 0 (-100) 100 (10 ^ 18))
      as (c & l & u & Ec & El & Eu & _ & Hmid & _);
      [solve_in_range .. |].
    vm_compute in Ec, El, Eu.
    injection Ec as <-. injection El as <-. injection Eu as <-.
    destruct Hmid as (amount0 & amount1 & _ & _ & E); [lia|].
    exists amount0, amount1. exact E.
  - destruct (proj1 get_amounts_from_ticks_regimes 200 (-100) 100 (10 ^ 18))
      as (c & l & u & Ec & El & Eu & _ & _ & Hhigh);
      [solve_in_range .. |].
    vm_compute in Ec, El, Eu.
    injection Ec as <-. injection El as <-. injection Eu as <-.
    destruct Hhigh as (amount1 & _ & E); [lia|]. exists amount1. exact E.
Defined.

(** C2: on [-887272, 887272] the square-root price is strictly increasing
    in the tick: both calls return, and the smaller tick has the smaller
    price. *)
Theorem get_sqrt_ratio_at_tick_strictly_increasing t1 t2 :
  -887272 <= t1 <= 887272 -> -887272 <= t2 <= 887272 -> t1 < t2 ->
  exists s1 s2,
    get_sqrt_ratio_at_tick t1 = Ok s1 /\
    get_sqrt_ratio_at_tick t2 = Ok s2 /\
    s1 < s2.
Proof.
  intros H1 H2 Hlt.
  exists (round_up_shift32 (ratio_at_tick t1)), (round_up_shift32 (ratio_at_tick t2)).
  split; [|split].
  - now apply get_sqrt_ratio_at_tick_in_range.
  - now apply get_sqrt_ratio_at_tick_in_range.
  - now apply sqrt_ratio_increasing.
Qed.

Lemma get_sqrt_ratio_at_tick_strictly_increasing_witness :
  exists s1 s2,
    get_sqrt_ratio_at_tick (-887272) = Ok s1 /\
    get_sqrt_ratio_at_tick 887272 = Ok s2 /\
    s1 < s2.
Proof.
  apply (get_sqrt_ratio_at_tick_strictly_increasing (-887272) 887272); lia.
Defined.

(** C3: [get_sqrt_ratio_at_tick] raises its [ValueError] exactly when
    [|tick| > 887272] and returns a value for every tick of
    [-887272, 887272]; ticks [887273] and [-887273] are rejected. *)
Theorem get_sqrt_ratio_at_tick_domain :
  (forall tick,
     (get_sqrt_ratio_at_tick tick = Raise (ValueError "Tick value out of bounds")
      <-> 887272 < Z.abs tick)
     /\ (-887272 <= tick <= 887272 ->
         exists s, get_sqrt_ratio_at_tick tick = Ok s))
  /\ get_sqrt_ratio_at_tick 887273 = Raise (ValueError "Tick value out of bounds")
  /\ get_sqrt_ratio_at_tick (-887273) = Raise (ValueError "Tick value out of bounds").
Proof.
  split; [|split; reflexivity].
  intros tick. split; [split|].
  - intros Hraise.
    destruct (Z.lt_ge_cases 887272 (Z.abs tick)) as [Hout|Hin]; [assumption|].
    rewrite get_sqrt_ratio_at_tick_in_range in Hraise
      by (unfold in_range, MAX_TICK; lia).
    discriminate.
  - intros Hout. apply get_sqrt_ratio_at_tick_out_of_range.
    unfold in_range, MAX_TICK. lia.
  - intros Hin. eexists. now apply get_sqrt_ratio_at_tick_in_range.
Qed.

Lemma get_sqrt_ratio_at_tick_domain_witness :
  get_sqrt_ratio_at_tick 1000000 = Raise (ValueError "Tick value out of bounds")
  /\ 887272 < Z.abs (-887273)
  /\ exists s, get_sqrt_ratio_at_tick (-5) = Ok s.
Proof.
  split; [|split].
  - apply (proj1 get_sqrt_ratio_at_tick_domain 1000000). lia.
  - apply (proj1 get_sqrt_ratio_at_tick_domain (-887273)). reflexivity.
  - apply (proj1 get_sqrt_ratio_at_tick_domain (-5)). lia.
Defined.

(** C4: the square-root price of a tick of [-887272, 887272] fits in 160
    bits. *)
Theorem get_sqrt_ratio_at_tick_fits_160_bits tick :
  -887272 <= tick <= 887272 ->
  exists s, get_sqrt_ratio_at_tick tick = Ok s /\ 0 <= s < 2 ^ 160.
Proof.
  intros Hr. destruct (get_sqrt_ratio_at_tick_value tick Hr) as (s & Es & Hb).
  exists s. split; [assumption|].
  unfold MIN_SQRT_RATIO, MAX_SQRT_RATIO in Hb. lia.
Qed.

Lemma get_sqrt_ratio_at_tick_fits_160_bits_witness :
  exists s, get_sqrt_ratio_at_tick 887272 = Ok s /\ 0 <= s < 2 ^ 160.
Proof. apply (get_sqrt_ratio_at_tick_fits_160_bits 887272). lia. Defined.

(** C8: [get_amount0_for_liquidity] does not depend on the order of its two
    square-root prices: for distinct non-zero prices both orders return, and
    return the same amount.  The same holds for
    [get_amount1_for_liquidity]. *)
Theorem get_amount_for_liquidity_order_independent A B L :
  A <> B -> A <> 0 -> B <> 0 ->
  (exists amount0,
     get_amount0_for_liquidity A B L = Ok amount0 /\
     get_amount0_for_liquidity B A L = Ok amount0)
  /\ (exists amount1,
        get_amount1_for_liquidity A B L = Ok amount1 /\
        get_amount1_for_liquidity B A L = Ok amount1).
Proof.
  intros _ HA HB. split.
  - rewrite (get_amount0_for_liquidity_nonzero A B), (get_amount0_for_liquidity_nonzero B A)
      by trivial.
    rewrite (Z.max_comm B A), (Z.min_comm B A). eexists. split; reflexivity.
  - rewrite (get_amount1_for_liquidity_ordered A B), (get_amount1_for_liquidity_ordered B A).
    rewrite (Z.max_comm B A), (Z.min_comm B A). eexists. split; reflexivity.
Qed.

Lemma get_amount_for_liquidity_order_independent_witness :
  (exists amount0,
     get_amount0_for_liquidity (2 ^ 96) (2 ^ 97) 1000 = Ok amount0 /\
     get_amount0_for_liquidity (2 ^ 97) (2 ^ 96) 1000 = Ok amount0)
  /\ (exists amount1,
        get_amount1_for_liquidity (2 ^ 96) (2 ^ 97) 1000 = Ok amount1 /\
        get_amount1_for_liquidity (2 ^ 97) (2 ^ 96) 1000 = Ok amount1).
Proof.
  apply (get_amount_for_liquidity_order_independent (2 ^ 96) (2 ^ 97) 1000); lia.
Defined.

(** C9: tick 0 has square-root price exactly [2^96]. *)
Theorem get_sqrt_ratio_at_tick_zero : get_sqrt_ratio_at_tick 0 = Ok (2 ^ 96).
Proof. vm_compute. reflexivity. Qed.

(** C10: [get_amount0_for_liquidity] divides by the smaller of its two
    prices unguarded: it raises [ZeroDivisionError] whenever that minimum is
    zero.  With both prices positive it returns a value, and the
    square-root price of every in-range tick is positive. *)
Theorem get_amount0_for_liquidity_division :
  (forall A B L,
     Z.min A B = 0 -> get_amount0_for_liquidity A B L = Raise ZeroDivisionError)
  /\ (forall A B L,
        0 < A -> 0 < B -> exists amount0, get_amount0_for_liquidity A B L = Ok amount0)
  /\ (forall tick,
        -887272 <= tick <= 887272 ->
        exists s, get_sqrt_ratio_at_tick tick = Ok s /\ 0 < s).
Proof.
  split; [|split].
  - intros A B L Hmin. rewrite get_amount0_for_liquidity_ordered, Hmin.
    unfold mul_div, floordiv.
    destruct (Z.max A B =? 0); [reflexivity|]. reflexivity.
  - intros A B L HA HB. eexists. apply get_amount0_for_liquidity_nonzero; lia.
  - intros tick Hr. destruct (get_sqrt_ratio_at_tick_value tick Hr) as (s & Es & Hb).
    exists s. split; [assumption|]. unfold MIN_SQRT_RATIO in Hb. lia.
Qed.

Lemma get_amount0_for_liquidity_division_witness :
  get_amount0_for_liquidity 0 (2 ^ 96) 1000 = Raise ZeroDivisionError
  /\ (exists amount0, get_amount0_for_liquidity (2 ^ 96) (2 ^ 97) 1000 = Ok amount0)
  /\ (exists s, get_sqrt_ratio_at_tick (-887272) = Ok s /\ 0 < s).
Proof.
  destruct get_amount0_for_liquidity_division as (Hzero & Htotal & Hpos).
  split; [|split].
  - apply Hzero. reflexivity.
  - apply Htotal; lia.
  - apply Hpos. lia.
Defined.

(** ** The pool lookup table *)

Lemma build_pool_lookup_None pools token0 token1 :
  build_pool_lookup pools !! (lower token0, lower token1) = None <->
  (forall pool, pool ∈ pools -> ~ pair_matches pool token0 token1).
Proof.
  unfold build_pool_lookup.
  assert (Hgen : forall acc : gmap (string * string) Pool.mapping,
    foldl (fun pool_lookup pool =>
             let token0 := lower (Pool.token0 pool) in
             let token1 := lower (Pool.token1 pool) in
             <[(token1, token0) := pool]> (<[(token0, token1) := pool]> pool_lookup))
          acc pools !! (lower token0, lower token1) = None <->
    acc !! (lower token0, lower token1) = None /\
    (forall pool, pool ∈ pools -> ~ pair_matches pool token0 token1)).
  { induction pools as [|p pools IH]; intros acc; cbn [foldl].
    - split; [intros H; split; [exact H | intros pool Hin; inversion Hin] | tauto].
    - rewrite IH. cbv zeta. rewrite !lookup_insert_None. unfold pair_matches.
      split.
      + intros (((Hacc & Hne1) & Hne2) & Hrest). split; [exact Hacc|].
        intros pool Hin. rewrite elem_of_cons in Hin. destruct Hin as [->|Hin]; [|now apply Hrest].
        intros [[E0 E1]|[E0 E1]]; [apply Hne1 | apply Hne2]; congruence.
      + intros (Hacc & Hall). split; [split; [split|]|].
        * exact Hacc.
        * intros E. apply (Hall p); [apply elem_of_cons; now left|].
          left. inversion E. split; congruence.
        * intros E. apply (Hall p); [apply elem_of_cons; now left|].
          right. inversion E. split; congruence.
        * intros pool Hin. apply Hall. apply elem_of_cons. now right. }
  rewrite Hgen. rewrite lookup_empty. tauto.
Qed.

Lemma pool_lookup_unmapped token0 token1 :
  unmapped token0 token1 -> pool_lookup !! (lower token0, lower token1) = None.
Proof. intros H. now apply build_pool_lookup_None. Qed.

(** ** One entry of the position loop *)

Lemma for_each_cons {A S : Type} (body : S -> A -> io S) x l s log :
  for_each body (x :: l) s log =
    match body s x log with
    | (Ok s', log') => for_each body l s' log'
    | (Raise e, log') => (Raise e, log')
    end.
Proof. reflexivity. Qed.

Lemma item_Some {A : Type} (l : list A) i x : l !! i = Some x -> item l i = Ok x.
Proof. intros H. unfold item. now rewrite H. Qed.

Lemma non_zero_body_degrades asset_data w3 result i log nft_contract token_id :
  asset_data.1.1 !! i = Some nft_contract ->
  asset_data.1.2 !! i = Some token_id ->
  degrades w3 log nft_contract token_id ->
  non_zero_body asset_data w3 result i log =
    (Ok (add_or_update_dict result nft_contract 0),
     log ++ [PositionsCall nft_contract token_id]).
Proof.
  intros Ha Hi Hd. unfold non_zero_body. run_io.
  rewrite (item_Some _ _ _ Ha), (item_Some _ _ _ Hi).
  unfold get_nft_positions_details, call_or_none.
  destruct Hd as [E | (details & E & Hun)]; rewrite E.
  - reflexivity.
  - now rewrite (pool_lookup_unmapped _ _ Hun).
Qed.

Lemma non_zero_body_slot0_unavailable asset_data w3 result i log nft_contract
    token_id details matching_pool :
  asset_data.1.1 !! i = Some nft_contract ->
  asset_data.1.2 !! i = Some token_id ->
  call_positions w3 log nft_contract token_id = Returned details ->
  pool_lookup !! (lower (Position.token0 details), lower (Position.token1 details))
    = Some matching_pool ->
  call_slot0 w3 (log ++ [PositionsCall nft_contract token_id]) (Pool.pool matching_pool)
    = ContractLogicError ->
  non_zero_body asset_data w3 result i log =
    (Ok result,
     log ++ [PositionsCall nft_contract token_id; Slot0Call (Pool.pool matching_pool)]).
Proof.
  intros Ha Hi Hpos Hpool Hslot. unfold non_zero_body. run_io.
  rewrite (item_Some _ _ _ Ha), (item_Some _ _ _ Hi).
  unfold get_nft_positions_details, call_or_none. rewrite Hpos, Hpool.
  unfold get_uniswap_slot0, call_or_none. rewrite Hslot.
  unfold mret, io_ret. now rewrite <- app_assoc.
Qed.

(** ** A loop over the indices selected by [indices_where] *)

Section IndexLoop.

Context {S : Type}.
Variables (body : S -> nat -> io S) (p : Z -> bool).
Variables (step : S -> string * Z * Z -> S) (calls : string * Z * Z -> list call).
Variables (addresses : list string) (ids amounts : list Z).

(** What the body does at a selected index, in terms of the entry there. *)
Hypothesis body_at : forall i address id amount s log,
  addresses !! i = Some address -> ids !! i = Some id ->
  amounts !! i = Some amount -> p id = true ->
  body s i log = (Ok (step s (address, id, amount)), log ++ calls (address, id, amount)).

Lemma for_each_suffix ids' :
  forall addresses' amounts' pre_addresses pre_ids pre_amounts s log,
    addresses = pre_addresses ++ addresses' ->
    ids = pre_ids ++ ids' ->
    amounts = pre_amounts ++ amounts' ->
    length pre_addresses = length pre_ids ->
    length pre_amounts = length pre_ids ->
    length addresses' = length ids' ->
    length amounts' = length ids' ->
    for_each body
      (List.filter (fun iv => p iv.2) (enumerate (length pre_ids) ids')).*1 s log
    = (Ok (foldl (fun s e => if p e.1.2 then step s e else s) s
             (zip (zip addresses' ids') amounts')),
       log ++ flat_map (fun e => if p e.1.2 then calls e else [])
                (zip (zip addresses' ids') amounts')).
Proof.
  induction ids' as [|id ids' IH];
    intros [|address addresses'] [|amount amounts'] pa pi pm s log
      Ea Ei Em Hpa Hpm Hla Hlm; try discriminate.
  - cbn. now rewrite app_nil_r.
  - assert (Hrest : forall s' log',
      for_each body
        (List.filter (fun iv => p iv.2) (enumerate (Datatypes.S (length pi)) ids')).*1
        s' log'
      = (Ok (foldl (fun s e => if p e.1.2 then step s e else s) s'
               (zip (zip addresses' ids') amounts')),
         log' ++ flat_map (fun e => if p e.1.2 then calls e else [])
                   (zip (zip addresses' ids') amounts'))).
    { intros s' log'.
      replace (Datatypes.S (length pi)) with (length (pi ++ [id]))
        by (rewrite length_app; cbn; lia).
      apply (IH addresses' amounts' (pa ++ [address]) (pi ++ [id]) (pm ++ [amount]));
        try (rewrite <- app_assoc; assumption);
        try (rewrite !length_app; cbn; lia);
        cbn in Hla, Hlm; lia. }
    cbn [enumerate List.filter snd zip zip_with foldl flat_map fst].
    destruct (p id) eqn:Hp.
    + cbn [fmap list_fmap fst]. rewrite for_each_cons.
      rewrite (body_at (length pi) address id amount).
      * rewrite Hrest. now rewrite <- app_assoc.
      * rewrite Ea. apply list_lookup_middle. lia.
      * rewrite Ei. now apply list_lookup_middle.
      * rewrite Em. apply list_lookup_middle. lia.
      * exact Hp.
    + rewrite Hrest. reflexivity.
Qed.

Lemma for_each_indices_where s log :
  length addresses = length ids -> length amounts = length ids ->
  for_each body (indices_where p ids) s log
  = (Ok (foldl (fun s e => if p e.1.2 then step s e else s) s
           (zip (zip addresses ids) amounts)),
     log ++ flat_map (fun e => if p e.1.2 then calls e else [])
              (zip (zip addresses ids) amounts)).
Proof.
  intros Hla Hlm. unfold indices_where.
  now apply (for_each_suffix ids addresses amounts [] [] []).
Qed.

End IndexLoop.

(** ** The result map after the two loops *)

Lemma add_or_update_dict_lookup (dictionary : gmap string Z) key value address :
  add_or_update_dict dictionary key value !! address =
    if decide (key = address) then Some (default 0 (dictionary !! key) + value)
    else dictionary !! address.
Proof.
  unfold add_or_update_dict. destruct (decide (key = address)) as [->|Hne].
  - apply lookup_insert_eq.
  - now apply lookup_insert_ne.
Qed.

(** The fungible loop adds the amounts; it creates the keys it meets. *)
Lemma fungible_fold_lookup es : forall (result : gmap string Z) address,
  let result' :=
    foldl (fun s e => if e.1.2 =? 0 then add_or_update_dict s e.1.1 e.2 else s)
          result es in
  default 0 (result' !! address)
    = default 0 (result !! address) + total_under address (fungible_entries es)
  /\ (is_Some (result' !! address) <->
      is_Some (result !! address) \/ address ∈ (fungible_entries es).*1).
Proof.
  induction es as [|[[key id] amount] es IH]; intros result address; cbn zeta.
  - cbn. split; [lia|]. rewrite elem_of_nil. tauto.
  - cbn [foldl fungible_entries fst snd].
    destruct (id =? 0).
    + destruct (IH (add_or_update_dict result key amount) address) as [Hval Hkey].
      cbn zeta in Hval, Hkey. rewrite Hval, Hkey. clear Hval Hkey.
      rewrite add_or_update_dict_lookup.
      cbn [total_under fmap list_fmap fst]. rewrite elem_of_cons.
      destruct (decide (key = address)) as [->|Hne].
      * split; [cbn; lia|]. split; [intros _; right; now left|].
        intros _. left. eexists. reflexivity.
      * split; [lia|]. split; [tauto|]. intros [H|[H|H]]; [tauto | congruence | tauto].
    + apply IH.
Qed.

(** The degraded position tokens add nothing to any amount; they create the
    key of their contract. *)
Lemma degraded_fold_lookup es : forall (result : gmap string Z) address,
  let result' :=
    foldl (fun s e => if negb (e.1.2 =? 0) then add_or_update_dict s e.1.1 0 else s)
          result es in
  default 0 (result' !! address) = default 0 (result !! address)
  /\ (is_Some (result' !! address) <->
      is_Some (result !! address) \/ address ∈ (position_entries es).*1).
Proof.
  induction es as [|[[key id] amount] es IH]; intros result address; cbn zeta.
  - cbn. split; [lia|]. rewrite elem_of_nil. tauto.
  - cbn [foldl position_entries fst snd].
    destruct (id =? 0); cbn [negb].
    + apply IH.
    + destruct (IH (add_or_update_dict result key 0) address) as [Hval Hkey].
      cbn zeta in Hval, Hkey. rewrite Hval, Hkey. clear Hval Hkey.
      rewrite add_or_update_dict_lookup.
      cbn [fmap list_fmap fst]. rewrite elem_of_cons.
      destruct (decide (key = address)) as [->|Hne].
      * split; [cbn; lia|]. split; [intros _; right; now left|].
        intros _. left. eexists. reflexivity.
      * split; [lia|]. split; [tauto|]. intros [H|[H|H]]; [tauto | congruence | tauto].
Qed.

Lemma entries_addresses (es : list (string * Z * Z)) address :
  address ∈ es.*1.*1 <->
  address ∈ (fungible_entries es).*1 \/ address ∈ (position_entries es).*1.
Proof.
  induction es as [|[[key id] amount] es IH]; cbn [fmap list_fmap].
  - cbn. rewrite elem_of_nil. tauto.
  - cbn [fungible_entries position_entries fst].
    destruct (id =? 0); cbn [fmap list_fmap fst]; rewrite !elem_of_cons, IH; tauto.
Qed.

Lemma no_calls_for_fungible (es : list (string * Z * Z)) :
  flat_map (fun e : string * Z * Z => if e.1.2 =? 0 then [] else []) es = @nil call.
Proof. induction es as [|e es IH]; cbn; [|destruct (e.1.2 =? 0)]; auto. Qed.

Lemma calls_for_positions (es : list (string * Z * Z)) :
  flat_map (fun e : string * Z * Z =>
              if negb (e.1.2 =? 0) then [PositionsCall e.1.1 e.1.2] else []) es
  = (fun e : string * Z => PositionsCall e.1 e.2) <$> position_entries es.
Proof.
  induction es as [|[[key id] amount] es IH]; [reflexivity|].
  cbn [flat_map position_entries fst snd].
  destruct (id =? 0); cbn [negb app fmap list_fmap]; now rewrite IH.
Qed.

Lemma position_entries_all_zero addresses ids amounts :
  Forall (fun id => id = 0) ids ->
  position_entries (zip (zip addresses ids) amounts) = [].
Proof.
  intros Hz. revert addresses amounts.
  induction Hz as [|id ids -> _ IH]; intros [|a addresses] [|m amounts]; try reflexivity.
  cbn. apply IH.
Qed.

Lemma fungible_entries_all_zero addresses ids amounts :
  Forall (fun id => id = 0) ids ->
  length addresses = length ids -> length amounts = length ids ->
  fungible_entries (zip (zip addresses ids) amounts) = zip addresses amounts.
Proof.
  intros Hz. revert addresses amounts.
  induction Hz as [|id ids -> _ IH]; intros [|a addresses] [|m amounts] Hla Hlm;
    try discriminate; [reflexivity|].
  cbn. f_equal. apply IH; cbn in *; lia.
Qed.

(** ** A whole run in which every position token degrades *)

Lemma zero_body_at asset_data i address id amount result log :
  asset_data.1.1 !! i = Some address -> asset_data.1.2 !! i = Some id ->
  asset_data.2 !! i = Some amount -> (id =? 0) = true ->
  zero_body asset_data result i log =
    (Ok (add_or_update_dict result address amount), log ++ []).
Proof.
  intros Ha _ Hm _. unfold zero_body. run_io.
  rewrite (item_Some _ _ _ Ha), (item_Some _ _ _ Hm).
  unfold mret, io_ret. now rewrite app_nil_r.
Qed.

Lemma degraded_run addresses ids amounts w3 log :
  length addresses = length ids -> length amounts = length ids ->
  (forall i nft_contract token_id log',
     addresses !! i = Some nft_contract -> ids !! i = Some token_id ->
     token_id <> 0 -> degrades w3 log' nft_contract token_id) ->
  exists result,
    get_arcadia_account_nft_position (addresses, ids, amounts) w3 log
    = (Ok result,
       log ++ ((fun e : string * Z => PositionsCall e.1 e.2)
                 <$> position_entries (entries (addresses, ids, amounts))))
    /\ forall address,
         result !! address =
           if decide (address ∈ addresses)
           then Some (total_under address
                        (fungible_entries (entries (addresses, ids, amounts))))
           else None.
Proof.
  intros Hla Hlm Hdeg.
  unfold get_arcadia_account_nft_position, entries. cbn [fst snd]. cbv zeta.
  unfold mbind at 1, io_bind at 1.
  rewrite (for_each_indices_where (zero_body (addresses, ids, amounts))
             (fun value => value =? 0)
             (fun s e => add_or_update_dict s e.1.1 e.2) (fun _ => [])
             addresses ids amounts); [| |assumption|assumption].
  2:{ intros i a v m s l Ha Hi Hm Hp. now apply (zero_body_at _ i a v m). }
  rewrite no_calls_for_fungible, app_nil_r.
  rewrite (for_each_indices_where (non_zero_body (addresses, ids, amounts) w3)
             (fun value => negb (value =? 0))
             (fun s e => add_or_update_dict s e.1.1 0)
             (fun e => [PositionsCall e.1.1 e.1.2])
             addresses ids amounts); [| |assumption|assumption].
  2:{ intros i a v m s l Ha Hi Hm Hp. cbn [fst snd].
      apply non_zero_body_degrades; [exact Ha | exact Hi |].
      apply (Hdeg i); [exact Ha | exact Hi |].
      intros Hv. rewrite Hv in Hp. discriminate Hp. }
  rewrite calls_for_positions.
  eexists. split; [reflexivity|].
  intros address.
  set (es := zip (zip addresses ids) amounts).
  destruct (degraded_fold_lookup es
              (foldl (fun s e => if e.1.2 =? 0 then add_or_update_dict s e.1.1 e.2 else s)
                     ∅ es) address) as [Hval Hkey].
  destruct (fungible_fold_lookup es ∅ address) as [Hval0 Hkey0].
  cbn zeta in Hval, Hkey, Hval0, Hkey0.
  rewrite Hkey0 in Hkey. rewrite Hval0 in Hval. rewrite lookup_empty in Hkey, Hval.
  assert (Hin : address ∈ addresses <->
                address ∈ (fungible_entries es).*1 \/ address ∈ (position_entries es).*1).
  { rewrite <- entries_addresses. unfold es.
    rewrite fst_zip by (rewrite length_zip; lia). rewrite fst_zip by lia. reflexivity. }
  destruct (decide (address ∈ addresses)) as [Hyes|Hno].
  - destruct Hkey as [_ Hkey].
    destruct Hkey as [x Hx].
    { apply Hin in Hyes. destruct Hyes; [left; now right | now right]. }
    rewrite Hx in Hval |- *. cbn in Hval. f_equal. lia.
  - apply eq_None_not_Some. intros Hsome. apply Hno, Hin.
    apply Hkey in Hsome as [[Hsome|?]|?]; [|tauto|tauto].
    destruct Hsome as [? ?]. discriminate.
Qed.

(** ** The claims on aggregation *)

(** C5: a position token whose lookup raises [ContractLogicError], or whose
    token pair matches no table entry in either order (case-insensitively),
    is recorded under its own contract address with amount 0, and the loop
    goes on with the remaining entries.  When every position token of an
    account fails in one of these two ways the aggregation returns: every
    address of the account is a key of the result, and its amount is the sum
    of the fungible balances held under it. *)
Theorem aggregation_degrades_per_entry :
  (forall asset_data w3 i rest result log nft_contract token_id,
     asset_data.1.1 !! i = Some nft_contract ->
     asset_data.1.2 !! i = Some token_id ->
     token_id <> 0 ->
     degrades w3 log nft_contract token_id ->
     for_each (non_zero_body asset_data w3) (i :: rest) result log
     = for_each (non_zero_body asset_data w3) rest
         (add_or_update_dict result nft_contract 0)
         (log ++ [PositionsCall nft_contract token_id]))
  /\ (forall addresses ids amounts w3 log,
        length addresses = length ids -> length amounts = length ids ->
        (forall i nft_contract token_id log',
           addresses !! i = Some nft_contract -> ids !! i = Some token_id ->
           token_id <> 0 -> degrades w3 log' nft_contract token_id) ->
        exists result log',
          get_arcadia_account_nft_position (addresses, ids, amounts) w3 log
            = (Ok result, log')
          /\ forall address,
               result !! address =
                 if decide (address ∈ addresses)
                 then Some (total_under address
                              (fungible_entries (entries (addresses, ids, amounts))))
                 else None).
Proof.
  split.
  - intros asset_data w3 i rest result log nft_contract token_id Ha Hi _ Hdeg.
    rewrite for_each_cons.
    now rewrite (non_zero_body_degrades _ _ _ _ _ _ _ Ha Hi Hdeg).
  - intros addresses ids amounts w3 log Hla Hlm Hdeg.
    destruct (degraded_run addresses ids amounts w3 log Hla Hlm Hdeg)
      as (result & Hrun & Hlookup).
    exists result. eexists. split; [exact Hrun | exact Hlookup].
Qed.

Lemma aggregation_degrades_per_entry_witness :
  for_each (non_zero_body sample_asset_data w3_no_contract) [2%nat] ∅ []
  = for_each (non_zero_body sample_asset_data w3_no_contract) []
      (add_or_update_dict ∅ "0x03a520b32C04BF3bEEf7BEb72E919cf822Ed34f1" 0)
      ([] ++ [PositionsCall "0x03a520b32C04BF3bEEf7BEb72E919cf822Ed34f1" 105363])
  /\ exists result log',
       get_arcadia_account_nft_position sample_asset_data w3_no_contract []
         = (Ok result, log')
       /\ result !! "0x03a520b32C04BF3bEEf7BEb72E919cf822Ed34f1" = Some 0
       /\ result !! "0x4200000000000000000000000000000000000006"
          = Some 13102161708949451.
Proof.
  split.
  - apply (proj1 aggregation_degrades_per_entry sample_asset_data w3_no_contract
             2%nat [] ∅ [] "0x03a520b32C04BF3bEEf7BEb72E919cf822Ed34f1" 105363).
    + reflexivity.
    + reflexivity.
    + discriminate.
    + left. reflexivity.
  - destruct (proj2 aggregation_degrades_per_entry
                sample_asset_data.1.1 sample_asset_data.1.2 sample_asset_data.2
                w3_no_contract [])
      as (result & log' & Hrun & Hlookup).
    + reflexivity.
    + reflexivity.
    + intros i nft_contract token_id log' _ _ _. left. reflexivity.
    + exists result, log'. split; [exact Hrun|].
      rewrite !Hlookup. split; vm_compute; reflexivity.
Defined.

(** C6: when every identifier is zero the aggregation makes no read call
    (the log of calls comes back unchanged) and returns the map holding, for
    each address of the account, the sum of the amounts listed under it.
    For two distinct addresses with amounts 100 and 50 the result is
    [{addrX: 100, addrY: 50}]. *)
Theorem aggregation_fungible_only :
  (forall addresses ids amounts w3 log,
     Forall (fun id => id = 0) ids ->
     length addresses = length ids -> length amounts = length ids ->
     exists result,
       get_arcadia_account_nft_position (addresses, ids, amounts) w3 log
         = (Ok result, log)
       /\ forall address,
            result !! address =
              if decide (address ∈ addresses)
              then Some (total_under address (zip addresses amounts))
              else None)
  /\ (forall addrX addrY w3 log,
        addrX <> addrY ->
        get_arcadia_account_nft_position ([addrX; addrY], [0; 0], [100; 50]) w3 log
          = (Ok {[ addrX := 100; addrY := 50 ]}, log)).
Proof.
  split.
  - intros addresses ids amounts w3 log Hz Hla Hlm.
    destruct (degraded_run addresses ids amounts w3 log Hla Hlm)
      as (result & Hrun & Hlookup).
    { intros i nft_contract token_id log' _ Hi Hne.
      rewrite Forall_lookup in Hz. now specialize (Hz i token_id Hi). }
    exists result. split.
    + rewrite Hrun. unfold entries. cbn [fst snd].
      rewrite position_entries_all_zero by assumption.
      cbn [fmap list_fmap]. now rewrite app_nil_r.
    + intros address. rewrite Hlookup. unfold entries. cbn [fst snd].
      now rewrite fungible_entries_all_zero.
  - intros addrX addrY w3 log Hne.
    cbv [get_arcadia_account_nft_position indices_where enumerate List.filter
         fst snd Z.eqb negb fmap list_fmap for_each zero_body mbind io_bind
         lift item lookup list_lookup mret io_ret].
    unfold add_or_update_dict.
    rewrite lookup_empty, lookup_insert_ne, lookup_empty by assumption.
    cbn [default]. rewrite insert_insert_ne by congruence.
    rewrite insert_empty. reflexivity.
Qed.

Lemma aggregation_fungible_only_witness :
  (exists result,
     get_arcadia_account_nft_position
       (["0x2Ae3F1Ec7F1F5012CFEab0185bfc7aa3cf0DEc22";
         "0x2Ae3F1Ec7F1F5012CFEab0185bfc7aa3cf0DEc22"], [0; 0], [100; 50])
       w3_no_contract []
     = (Ok result, [])
     /\ result !! "0x2Ae3F1Ec7F1F5012CFEab0185bfc7aa3cf0DEc22" = Some 150)
  /\ get_arcadia_account_nft_position
       (["0x2Ae3F1Ec7F1F5012CFEab0185bfc7aa3cf0DEc22";
         "0x4200000000000000000000000000000000000006"], [0; 0], [100; 50])
       w3_no_contract []
     = (Ok {[ "0x2Ae3F1Ec7F1F5012CFEab0185bfc7aa3cf0DEc22" := 100;
              "0x4200000000000000000000000000000000000006" := 50 ]}, []).
Proof.
  split.
  - destruct (proj1 aggregation_fungible_only
                ["0x2Ae3F1Ec7F1F5012CFEab0185bfc7aa3cf0DEc22";
                 "0x2Ae3F1Ec7F1F5012CFEab0185bfc7aa3cf0DEc22"] [0; 0] [100; 50]
                w3_no_contract [])
      as (result & Hrun & Hlookup).
    + repeat constructor.
    + reflexivity.
    + reflexivity.
    + exists result. split; [exact Hrun|]. rewrite Hlookup. vm_compute. reflexivity.
  - apply (proj2 aggregation_fungible_only). discriminate.
Defined.

(** C7, as amended: a position token whose lookup and pool match succeed
    but whose [slot0] read raises [ContractLogicError] (the one failure
    [get_uniswap_slot0] catches) is skipped: the result map is left as it
    was, without a marker for the token, and the loop goes on with the
    remaining entries.  An account holding only such a token aggregates to
    the empty map. *)
Theorem aggregation_skips_unreadable_pool :
  (forall asset_data w3 i rest result log nft_contract token_id details matching_pool,
     asset_data.1.1 !! i = Some nft_contract ->
     asset_data.1.2 !! i = Some token_id ->
     token_id <> 0 ->
     call_positions w3 log nft_contract token_id = Returned details ->
     pool_lookup !! (lower (Position.token0 details), lower (Position.token1 details))
       = Some matching_pool ->
     call_slot0 w3 (log ++ [PositionsCall nft_contract token_id]) (Pool.pool matching_pool)
       = ContractLogicError ->
     for_each (non_zero_body asset_data w3) (i :: rest) result log
     = for_each (non_zero_body asset_data w3) rest result
         (log ++ [PositionsCall nft_contract token_id;
                  Slot0Call (Pool.pool matching_pool)]))
  /\ (forall w3 log nft_contract token_id amount details matching_pool,
        token_id <> 0 ->
        call_positions w3 log nft_contract token_id = Returned details ->
        pool_lookup !! (lower (Position.token0 details), lower (Position.token1 details))
          = Some matching_pool ->
        call_slot0 w3 (log ++ [PositionsCall nft_contract token_id]) (Pool.pool matching_pool)
          = ContractLogicError ->
        get_arcadia_account_nft_position ([nft_contract], [token_id], [amount]) w3 log
        = (Ok ∅, log ++ [PositionsCall nft_contract token_id;
                         Slot0Call (Pool.pool matching_pool)])).
Proof.
  split.
  - intros asset_data w3 i rest result log nft_contract token_id details
      matching_pool Ha Hi _ Hpos Hpool Hslot.
    rewrite for_each_cons.
    now rewrite (non_zero_body_slot0_unavailable _ _ _ _ _ _ _ _ _ Ha Hi Hpos Hpool Hslot).
  - intros w3 log nft_contract token_id amount details matching_pool
      Hne Hpos Hpool Hslot.
    unfold get_arcadia_account_nft_position, indices_where.
    cbn [fst snd enumerate List.filter].
    assert (Hid : (token_id =? 0) = false) by now apply Z.eqb_neq.
    rewrite Hid. cbn [negb fmap list_fmap fst].
    unfold mbind at 1, io_bind at 1. cbn [for_each]. unfold mret at 1, io_ret at 1.
    unfold mbind, io_bind.
    rewrite (non_zero_body_slot0_unavailable _ w3 ∅ 0%nat log nft_contract token_id
               details matching_pool); try assumption; reflexivity.
Qed.

Lemma aggregation_skips_unreadable_pool_witness :
  for_each (non_zero_body sample_asset_data w3_no_pool_state) [2%nat] ∅ []
  = for_each (non_zero_body sample_asset_data w3_no_pool_state) [] ∅
      ([] ++ [PositionsCall "0x03a520b32C04BF3bEEf7BEb72E919cf822Ed34f1" 105363;
              Slot0Call "0xd0b53D9277642d899DF5C87A3966A349A798F224"])
  /\ get_arcadia_account_nft_position
       (["0x03a520b32C04BF3bEEf7BEb72E919cf822Ed34f1"], [105363], [1])
       w3_no_pool_state []
     = (Ok ∅, [] ++ [PositionsCall "0x03a520b32C04BF3bEEf7BEb72E919cf822Ed34f1" 105363;
                     Slot0Call "0xd0b53D9277642d899DF5C87A3966A349A798F224"]).
Proof.
  split.
  - apply (proj1 aggregation_skips_unreadable_pool sample_asset_data
             w3_no_pool_state 2%nat [] ∅ []
             "0x03a520b32C04BF3bEEf7BEb72E919cf822Ed34f1" 105363 sample_position
             wETH_USDC).
    + reflexivity.
    + reflexivity.
    + discriminate.
    + reflexivity.
    + vm_compute. reflexivity.
    + reflexivity.
  - apply (proj2 aggregation_skips_unreadable_pool w3_no_pool_state []
             "0x03a520b32C04BF3bEEf7BEb72E919cf822Ed34f1" 105363 1 sample_position
             wETH_USDC).
    + discriminate.
    + reflexivity.
    + vm_compute. reflexivity.
    + reflexivity.
Defined.

(** C7, counterexample to the claim read for any failing state read.  On a
    chain whose [slot0] read raises another exception than
    [ContractLogicError], the first token of the account has a non-zero
    identifier, its lookup and its pool match succeed and its state read
    fails; yet the token is not skipped: the loop does not go on to the
    second token, and the aggregation ends with that exception after the
    two reads of the first token. *)
Lemma aggregation_unreadable_pool_not_always_skipped :
  two_positions_asset_data.1.1 !! 0%nat
    = Some "0x03a520b32C04BF3bEEf7BEb72E919cf822Ed34f1"
  /\ two_positions_asset_data.1.2 !! 0%nat = Some 105363
  /\ 105363 <> 0
  /\ call_positions w3_slot0_unreachable []
       "0x03a520b32C04BF3bEEf7BEb72E919cf822Ed34f1" 105363
     = Returned sample_position
  /\ pool_lookup !! (lower (Position.token0 sample_position),
                     lower (Position.token1 sample_position))
     = Some wETH_USDC
  /\ read_fails
       (call_slot0 w3_slot0_unreachable
          ([] ++ [PositionsCall "0x03a520b32C04BF3bEEf7BEb72E919cf822Ed34f1" 105363])
          (Pool.pool wETH_USDC))
  /\ for_each (non_zero_body two_positions_asset_data w3_slot0_unreachable)
       [0%nat; 1%nat] ∅ []
     <> for_each (non_zero_body two_positions_asset_data w3_slot0_unreachable)
          [1%nat] ∅
          ([] ++ [PositionsCall "0x03a520b32C04BF3bEEf7BEb72E919cf822Ed34f1" 105363;
                  Slot0Call (Pool.pool wETH_USDC)])
  /\ get_arcadia_account_nft_position two_positions_asset_data
       w3_slot0_unreachable []
     = (Raise (Web3Error "connection refused"),
        [PositionsCall "0x03a520b32C04BF3bEEf7BEb72E919cf822Ed34f1" 105363;
         Slot0Call "0xd0b53D9277642d899DF5C87A3966A349A798F224"]).
Proof.
  split; [reflexivity|]. split; [reflexivity|]. split; [discriminate|].
  split; [reflexivity|]. split; [vm_compute; reflexivity|].
  split; [exact I|]. split.
  - intros Heq. vm_compute in Heq. discriminate Heq.
  - vm_compute. reflexivity.
Qed.

(** * Further properties of the fixed-point library *)

(** ** The square-root price as a function of the tick, continued *)

(** X1: over [-887272, 887272] the square-root price stays between its
    values at the two end ticks, [4295128739] and
    [1461446703485210103287273052203988822378723970342]. *)
Theorem get_sqrt_ratio_at_tick_between_extremes tick :
  -887272 <= tick <= 887272 ->
  exists s,
    get_sqrt_ratio_at_tick tick = Ok s /\
    4295128739 <= s <= 1461446703485210103287273052203988822378723970342.
Proof. intros Hr. exact (get_sqrt_ratio_at_tick_value tick Hr). Qed.

Lemma get_sqrt_ratio_at_tick_between_extremes_witness :
  exists s,
    get_sqrt_ratio_at_tick 12345 = Ok s /\
    4295128739 <= s <= 1461446703485210103287273052203988822378723970342.
Proof. apply (get_sqrt_ratio_at_tick_between_extremes 12345). lia. Defined.

(** X2: on in-range ticks the square-root price reflects the order of the
    ticks: the prices compare as the ticks do, and equal prices come from
    equal ticks. *)
Theorem get_sqrt_ratio_at_tick_reflects_order t1 t2 s1 s2 :
  -887272 <= t1 <= 887272 -> -887272 <= t2 <= 887272 ->
  get_sqrt_ratio_at_tick t1 = Ok s1 ->
  get_sqrt_ratio_at_tick t2 = Ok s2 ->
  (s1 < s2 <-> t1 < t2) /\ (s1 = s2 <-> t1 = t2).
Proof.
  intros H1 H2 E1 E2.
  rewrite get_sqrt_ratio_at_tick_in_range in E1, E2 by assumption.
  injection E1 as <-. injection E2 as <-.
  destruct (Z.lt_trichotomy t1 t2) as [Hlt | [-> | Hgt]].
  - pose proof (sqrt_ratio_increasing t1 t2 H1 H2 Hlt). lia.
  - lia.
  - pose proof (sqrt_ratio_increasing t2 t1 H2 H1 Hgt). lia.
Qed.

Lemma get_sqrt_ratio_at_tick_reflects_order_witness :
  (4295128739 < 2 ^ 96 <-> -887272 < 0) /\ (4295128739 = 2 ^ 96 <-> -887272 = 0).
Proof.
  apply (get_sqrt_ratio_at_tick_reflects_order (-887272) 0); try lia;
    vm_compute; reflexivity.
Defined.

(** X3: the sign of an in-range tick says on which side of [2^96] (price
    1.0) its square-root price lies. *)
Theorem get_sqrt_ratio_at_tick_sign tick s :
  -887272 <= tick <= 887272 ->
  get_sqrt_ratio_at_tick tick = Ok s ->
  (tick < 0 <-> s < 2 ^ 96) /\ (tick = 0 <-> s = 2 ^ 96) /\ (0 < tick <-> 2 ^ 96 < s).
Proof.
  intros Hr E.
  rewrite get_sqrt_ratio_at_tick_in_range in E by assumption. injection E as <-.
  assert (H0 : in_range 0) by solve_in_range.
  assert (E0 : round_up_shift32 (ratio_at_tick 0) = 2 ^ 96) by (vm_compute; reflexivity).
  destruct (Z.lt_trichotomy tick 0) as [Hlt | [-> | Hgt]].
  - pose proof (sqrt_ratio_increasing tick 0 Hr H0 Hlt). lia.
  - lia.
  - pose proof (sqrt_ratio_increasing 0 tick H0 Hr Hgt). lia.
Qed.

Lemma get_sqrt_ratio_at_tick_sign_witness :
  (1 < 0 <-> 79232123823359799118286999568 < 2 ^ 96)
  /\ (1 = 0 <-> 79232123823359799118286999568 = 2 ^ 96)
  /\ (0 < 1 <-> 2 ^ 96 < 79232123823359799118286999568).
Proof.
  apply (get_sqrt_ratio_at_tick_sign 1); [lia | vm_compute; reflexivity].
Defined.

(** The rounding shift is a ceiling division by [2^32]. *)
Lemma round_up_shift32_ceil x :
  x <= 2 ^ 32 * round_up_shift32 x < x + 2 ^ 32.
Proof.
  unfold round_up_shift32.
  rewrite Z.shiftr_div_pow2 by lia. change (Z.shiftl 1 32) with (2 ^ 32).
  destruct (Z.eqb_spec (x mod 2 ^ 32) 0);
    Z.to_euclidean_division_equations; lia.
Qed.

(** X4: the prices of opposite ticks are reciprocal up to rounding: their
    product differs from [2^192] (the square of price 1.0) by less than
    [2^161], a relative error below [2^-31]. *)
Theorem get_sqrt_ratio_at_tick_reciprocal tick s_pos s_neg :
  0 <= tick <= 887272 ->
  get_sqrt_ratio_at_tick tick = Ok s_pos ->
  get_sqrt_ratio_at_tick (- tick) = Ok s_neg ->
  2 ^ 192 - 2 ^ 64 < s_pos * s_neg < 2 ^ 192 + 2 ^ 161.
Proof.
  intros Hr Epos Eneg.
  rewrite get_sqrt_ratio_at_tick_in_range in Epos, Eneg by solve_in_range.
  injection Epos as <-. injection Eneg as <-.
  destruct (Z.eq_dec tick 0) as [->|Hne]; [vm_compute; split; reflexivity|].
  unfold ratio_at_tick.
  destruct (Z.gtb_spec tick 0) as [Hpos|Hnpos]; [|lia].
  destruct (Z.gtb_spec (- tick) 0) as [Hneg|Hnneg]; [lia|].
  rewrite Z.abs_opp, Z.abs_eq by lia.
  pose proof (ratio_at_abs_tick_bounds tick ltac:(solve_in_range)) as [_ Htop].
  pose proof (ratio_at_abs_tick_antitone tick 887272 ltac:(lia) ltac:(lia)) as Hlow.
  assert (Emin : ratio_at_abs_tick 887272 = 18447437462383981825)
    by (vm_compute; reflexivity).
  rewrite Emin in Hlow. unfold Q128 in Htop.
  set (r := ratio_at_abs_tick tick) in *.
  assert (Hr64 : 2 ^ 64 <= r) by lia.
  change (Z.shiftl 1 256) with (2 ^ 256).
  pose proof (Z.mul_div_le (2 ^ 256) r ltac:(lia)) as Hq1.
  pose proof (Z.mul_succ_div_gt (2 ^ 256) r ltac:(lia)) as Hq2.
  set (q := 2 ^ 256 / r) in *.
  assert (Hq192 : q <= 2 ^ 192).
  { apply Z.div_le_upper_bound; [lia|]. change (2 ^ 256) with (2 ^ 64 * 2 ^ 192). nia. }
  assert (Hq0 : 0 <= q) by (apply Z.div_pos; lia).
  pose proof (round_up_shift32_ceil r) as [Hn1 Hn2].
  pose proof (round_up_shift32_ceil q) as [Hp1 Hp2].
  set (n := round_up_shift32 r) in *. set (p := round_up_shift32 q) in *.
  assert (Hn0 : 0 <= n) by lia. assert (Hp0 : 0 <= p) by lia.
  split.
  - assert (H : 2 ^ 256 - 2 ^ 128 < (2 ^ 32 * p) * (2 ^ 32 * n)) by nia.
    change (2 ^ 256) with (2 ^ 64 * 2 ^ 192) in H.
    change (2 ^ 128) with (2 ^ 64 * 2 ^ 64) in H. nia.
  - assert (H : (2 ^ 32 * p) * (2 ^ 32 * n) < (q + 2 ^ 32) * (r + 2 ^ 32)) by nia.
    assert (H' : (q + 2 ^ 32) * (r + 2 ^ 32) <= 2 ^ 256 + 2 ^ 32 * (2 ^ 192 + 2 ^ 128) + 2 ^ 64)
      by nia.
    change (2 ^ 256) with (2 ^ 64 * 2 ^ 192) in H'.
    assert (H'' : 2 ^ 64 * (p * n) < 2 ^ 64 * (2 ^ 192 + 2 ^ 161)); [|nia].
    lia.
Qed.

Lemma get_sqrt_ratio_at_tick_reciprocal_witness :
  2 ^ 192 - 2 ^ 64
  < 1461446703485210103287273052203988822378723970342 * 4295128739
  < 2 ^ 192 + 2 ^ 161.
Proof.
  apply (get_sqrt_ratio_at_tick_reciprocal 887272); [lia | ..]; vm_compute; reflexivity.
Defined.

(** ** The amount functions, continued *)

Lemma get_amount0_for_liquidity_closed A B L :
  0 < A -> 0 < B ->
  get_amount0_for_liquidity A B L = Ok (amount0_of (Z.min A B) (Z.max A B) L).
Proof.
  intros HA HB. rewrite get_amount0_for_liquidity_nonzero by lia.
  unfold amount0_of. rewrite Z.shiftl_mul_pow2 by lia.
  rewrite Z.div_div by lia. now rewrite (Z.mul_comm (Z.max A B)).
Qed.

Lemma get_amount1_for_liquidity_closed A B L :
  get_amount1_for_liquidity A B L = Ok (amount1_of (Z.min A B) (Z.max A B) L).
Proof. apply get_amount1_for_liquidity_ordered. Qed.

(** A quotient grows with its numerator and shrinks with its denominator,
    compared by cross-multiplication. *)
Lemma div_le_cross x y d e :
  0 < d -> 0 < e -> x * e <= y * d -> x / d <= y / e.
Proof.
  intros Hd He Hxy. apply Z.div_le_lower_bound; [lia|].
  pose proof (Z.mul_div_le x d Hd) as Hq.
  assert (Hq' : e * (d * (x / d)) <= e * x) by nia.
  assert (Hgoal : d * (e * (x / d)) <= d * y) by lia.
  nia.
Qed.

Lemma amount0_of_range_mono lo lo' hi' hi L :
  0 < lo <= lo' -> lo' <= hi' <= hi -> 0 <= L ->
  amount0_of lo' hi' L <= amount0_of lo hi L.
Proof.
  intros Hlo Hhi HL. unfold amount0_of.
  apply div_le_cross; [nia | nia |].
  assert (Hcore : (hi' - lo') * (lo * hi) <= (hi - lo) * (lo' * hi')).
  { assert (H1 : 0 <= (lo' - lo) * (hi' * hi))
      by (apply Z.mul_nonneg_nonneg; [lia | apply Z.mul_nonneg_nonneg; lia]).
    assert (H2 : 0 <= (hi - hi') * (lo * lo'))
      by (apply Z.mul_nonneg_nonneg; [lia | apply Z.mul_nonneg_nonneg; lia]).
    replace ((hi - lo) * (lo' * hi'))
      with ((hi' - lo') * (lo * hi) + (lo' - lo) * (hi' * hi) + (hi - hi') * (lo * lo'))
      by ring.
    lia. }
  assert (0 <= L * 2 ^ 96) by lia.
  replace (L * 2 ^ 96 * (hi' - lo') * (lo * hi))
    with (L * 2 ^ 96 * ((hi' - lo') * (lo * hi))) by ring.
  replace (L * 2 ^ 96 * (hi - lo) * (lo' * hi'))
    with (L * 2 ^ 96 * ((hi - lo) * (lo' * hi'))) by ring.
  now apply Z.mul_le_mono_nonneg_l.
Qed.

Lemma amount1_of_range_mono lo lo' hi' hi L :
  lo <= lo' -> hi' <= hi -> 0 <= L ->
  amount1_of lo' hi' L <= amount1_of lo hi L.
Proof.
  intros Hlo Hhi HL. unfold amount1_of. apply Z.div_le_mono; [lia | nia].
Qed.

Lemma amount0_of_nonneg lo hi L : 0 < lo <= hi -> 0 <= L -> 0 <= amount0_of lo hi L.
Proof. intros Hr HL. unfold amount0_of. apply Z.div_pos; nia. Qed.

Lemma amount1_of_nonneg lo hi L : lo <= hi -> 0 <= L -> 0 <= amount1_of lo hi L.
Proof. intros Hr HL. unfold amount1_of. apply Z.div_pos; nia. Qed.

(** X5: for positive prices the two successive floor divisions of
    [get_amount0_for_liquidity] give the same amount as one floor division
    of [liquidity * 2^96 * |B - A|] by the product [A * B]. *)
Theorem get_amount0_for_liquidity_single_division A B L :
  0 < A -> 0 < B ->
  get_amount0_for_liquidity A B L = Ok (L * 2 ^ 96 * Z.abs (B - A) / (A * B)).
Proof.
  intros HA HB. rewrite get_amount0_for_liquidity_closed by assumption.
  unfold amount0_of. f_equal.
  destruct (Z.le_ge_cases A B).
  - now rewrite Z.min_l, Z.max_r, Z.abs_eq by lia.
  - rewrite Z.min_r, Z.max_l, Z.abs_neq by lia.
    now replace (- (B - A)) with (A - B) by lia; rewrite (Z.mul_comm B A).
Qed.

Lemma get_amount0_for_liquidity_single_division_witness :
  get_amount0_for_liquidity 79625275426524748796330556128
    78833030112140176575862854579 (10 ^ 18)
  = Ok (10 ^ 18 * 2 ^ 96
        * Z.abs (78833030112140176575862854579 - 79625275426524748796330556128)
        / (79625275426524748796330556128 * 78833030112140176575862854579)).
Proof. apply get_amount0_for_liquidity_single_division; lia. Defined.

(** X6: an empty range and a zero liquidity hold nothing: both amounts are
    0 when the two prices coincide and when the liquidity is 0 (for
    token0, with non-zero prices, which the divisions need). *)
Theorem get_amount_for_liquidity_zero A B L :
  (A <> 0 -> get_amount0_for_liquidity A A L = Ok 0)
  /\ get_amount1_for_liquidity A A L = Ok 0
  /\ (A <> 0 -> B <> 0 -> get_amount0_for_liquidity A B 0 = Ok 0)
  /\ get_amount1_for_liquidity A B 0 = Ok 0.
Proof.
  split; [|split; [|split]].
  - apply get_amount0_for_liquidity_same.
  - apply get_amount1_for_liquidity_same.
  - intros HA HB. rewrite get_amount0_for_liquidity_nonzero by assumption.
    rewrite Z.shiftl_0_l, Z.mul_0_l. now rewrite !Z.div_0_l by lia.
  - rewrite get_amount1_for_liquidity_ordered. now rewrite Z.mul_0_l.
Qed.

Lemma get_amount_for_liquidity_zero_witness :
  get_amount0_for_liquidity (2 ^ 96) (2 ^ 96) 1000 = Ok 0
  /\ get_amount0_for_liquidity (2 ^ 96) (2 ^ 97) 0 = Ok 0.
Proof.
  destruct (get_amount_for_liquidity_zero (2 ^ 96) (2 ^ 97) 1000)
    as (_ & _ & Hliq & _).
  destruct (get_amount_for_liquidity_zero (2 ^ 96) (2 ^ 97) 1000)
    as (Hsame & _).
  split; [apply Hsame; lia | apply Hliq; lia].
Defined.

(** X7: for positive prices both amounts grow with the liquidity, and are
    non-negative for a non-negative liquidity. *)
Theorem get_amount_for_liquidity_monotone_in_liquidity A B L L' a0 a0' a1 a1' :
  0 < A -> 0 < B -> L <= L' ->
  get_amount0_for_liquidity A B L = Ok a0 ->
  get_amount0_for_liquidity A B L' = Ok a0' ->
  get_amount1_for_liquidity A B L = Ok a1 ->
  get_amount1_for_liquidity A B L' = Ok a1' ->
  a0 <= a0' /\ a1 <= a1' /\ (0 <= L -> 0 <= a0 /\ 0 <= a1).
Proof.
  intros HA HB HL E0 E0' E1 E1'.
  rewrite get_amount0_for_liquidity_closed in E0, E0' by assumption.
  rewrite get_amount1_for_liquidity_closed in E1, E1'.
  injection E0 as <-. injection E0' as <-. injection E1 as <-. injection E1' as <-.
  assert (Hmm : 0 < Z.min A B <= Z.max A B) by lia.
  split; [|split].
  - unfold amount0_of. apply Z.div_le_mono; [nia | nia].
  - unfold amount1_of. apply Z.div_le_mono; [lia | nia].
  - intros HL0. split; [now apply amount0_of_nonneg | apply amount1_of_nonneg; lia].
Qed.


Lemma get_amount_for_liquidity_monotone_in_liquidity_witness :
  500 <= 5000 /\ 1000 <= 10001 /\ (0 <= 1000 -> 0 <= 500 /\ 0 <= 1000).
Proof.
  apply (get_amount_for_liquidity_monotone_in_liquidity (2 ^ 96) (2 ^ 97) 1000 10001);
    try lia; vm_compute; reflexivity.
Defined.

(** X8: token1 amounts add up over adjacent ranges: for [A <= B <= C] and a
    non-negative liquidity, the amount over [A, C] is the sum of the amounts
    over [A, B] and [B, C], or one unit more (each floor division drops
    less than a unit). *)
Theorem get_amount1_for_liquidity_adjacent_ranges A B C L x y z :
  A <= B <= C -> 0 <= L ->
  get_amount1_for_liquidity A B L = Ok x ->
  get_amount1_for_liquidity B C L = Ok y ->
  get_amount1_for_liquidity A C L = Ok z ->
  x + y <= z <= x + y + 1.
Proof.
  intros HABC HL Ex Ey Ez.
  rewrite get_amount1_for_liquidity_closed in Ex, Ey, Ez.
  rewrite Z.min_l, Z.max_r in Ex, Ey, Ez by lia.
  injection Ex as <-. injection Ey as <-. injection Ez as <-.
  unfold amount1_of.
  replace (L * (C - A)) with (L * (B - A) + L * (C - B)) by ring.
  set (u := L * (B - A)). set (v := L * (C - B)).
  Z.to_euclidean_division_equations. lia.
Qed.

Lemma get_amount1_for_liquidity_adjacent_ranges_witness :
  500 + 500 <= 1000 <= 500 + 500 + 1.
Proof.
  apply (get_amount1_for_liquidity_adjacent_ranges
           (2 ^ 96) (2 ^ 96 + 2 ^ 95) (2 ^ 97) 1000);
    try lia; vm_compute; reflexivity.
Defined.

(** X9: a wider range holds at least as much: for positive prices
    [A <= A' <= B' <= B] and a non-negative liquidity, the amounts over
    [A', B'] do not exceed the amounts over [A, B]. *)
Theorem get_amount_for_liquidity_wider_range A A' B' B L a0 a0' a1 a1' :
  0 < A <= A' -> A' <= B' <= B -> 0 <= L ->
  get_amount0_for_liquidity A B L = Ok a0 ->
  get_amount0_for_liquidity A' B' L = Ok a0' ->
  get_amount1_for_liquidity A B L = Ok a1 ->
  get_amount1_for_liquidity A' B' L = Ok a1' ->
  a0' <= a0 /\ a1' <= a1.
Proof.
  intros HA HB HL E0 E0' E1 E1'.
  rewrite get_amount0_for_liquidity_closed in E0, E0' by lia.
  rewrite get_amount1_for_liquidity_closed in E1, E1'.
  rewrite Z.min_l, Z.max_r in E0, E0', E1, E1' by lia.
  injection E0 as <-. injection E0' as <-. injection E1 as <-. injection E1' as <-.
  split.
  - now apply amount0_of_range_mono.
  - apply amount1_of_range_mono; lia.
Qed.

Lemma get_amount_for_liquidity_wider_range_witness :
  166 <= 500 /\ 500 <= 1000.
Proof.
  apply (get_amount_for_liquidity_wider_range
           (2 ^ 96) (2 ^ 96 + 2 ^ 95) (2 ^ 97) (2 ^ 97) 1000);
    try lia; vm_compute; reflexivity.
Defined.

(** ** [get_amounts_from_ticks], continued *)

Lemma in_range_dec tick : {in_range tick} + {~ in_range tick}.
Proof.
  unfold in_range.
  destruct (Z_le_dec (- MAX_TICK) tick), (Z_le_dec tick MAX_TICK);
    (left; lia) || (right; lia).
Qed.

(** The result on in-range ticks, through the closed forms. *)
Lemma get_amounts_from_ticks_value tc tl tu L :
  in_range tc -> in_range tl -> in_range tu ->
  exists c l u,
    get_sqrt_ratio_at_tick tc = Ok c /\
    get_sqrt_ratio_at_tick tl = Ok l /\
    get_sqrt_ratio_at_tick tu = Ok u /\
    0 < c /\ 0 < Z.min l u <= Z.max l u /\
    get_amounts_from_ticks tc tl tu L =
      Ok (if c <=? Z.min l u then (amount0_of (Z.min l u) (Z.max l u) L, 0)
          else if c <? Z.max l u
               then (amount0_of c (Z.max l u) L, amount1_of (Z.min l u) c L)
               else (0, amount1_of (Z.min l u) (Z.max l u) L)).
Proof.
  intros Hc Hl Hu.
  destruct (get_sqrt_ratio_at_tick_value tc Hc) as (c & Ec & Hcb).
  destruct (get_sqrt_ratio_at_tick_value tl Hl) as (l & El & Hlb).
  destruct (get_sqrt_ratio_at_tick_value tu Hu) as (u & Eu & Hub).
  unfold MIN_SQRT_RATIO in *.
  exists c, l, u. repeat (split; [first [assumption | lia]|]).
  unfold get_amounts_from_ticks. rewrite Ec, El, Eu. cbn.
  assert (Hnorm : (if l >? u then (u, l) else (l, u)) = (Z.min l u, Z.max l u)).
  { destruct (Z.gtb_spec l u).
    - now rewrite Z.max_l, Z.min_r by lia.
    - now rewrite Z.max_r, Z.min_l by lia. }
  rewrite Hnorm.
  set (lo := Z.min l u). set (hi := Z.max l u).
  assert (Hlo : 0 < lo <= hi) by (unfold lo, hi; lia).
  destruct (Z.leb_spec c lo).
  - rewrite (get_amount0_for_liquidity_closed lo hi) by lia.
    now rewrite Z.min_l, Z.max_r by lia.
  - destruct (Z.ltb_spec c hi).
    + rewrite (get_amount0_for_liquidity_closed c hi) by lia.
      rewrite (get_amount1_for_liquidity_closed lo c).
      now rewrite !Z.min_l, !Z.max_r by lia.
    + rewrite (get_amount1_for_liquidity_closed lo hi).
      now rewrite Z.min_l, Z.max_r by lia.
Qed.

(** Non-strict monotonicity of the rounded value. *)
Lemma sqrt_ratio_monotone t1 t2 :
  in_range t1 -> in_range t2 -> t1 <= t2 ->
  round_up_shift32 (ratio_at_tick t1) <= round_up_shift32 (ratio_at_tick t2).
Proof.
  intros H1 H2 Hle. destruct (Z.eq_dec t1 t2) as [->|Hne]; [lia|].
  pose proof (sqrt_ratio_increasing t1 t2 H1 H2 ltac:(lia)). lia.
Qed.

Lemma get_amounts_from_ticks_out_of_range tickCurrent tickLower tickUpper L :
  ~ in_range tickCurrent \/ ~ in_range tickLower \/ ~ in_range tickUpper ->
  get_amounts_from_ticks tickCurrent tickLower tickUpper L
  = Raise (ValueError "Tick value out of bounds").
Proof.
  intros Hbad. unfold get_amounts_from_ticks.
  destruct (in_range_dec tickCurrent) as [Hc|Hc];
    [|now rewrite (get_sqrt_ratio_at_tick_out_of_range _ Hc)].
  rewrite (get_sqrt_ratio_at_tick_in_range _ Hc). cbn.
  destruct (in_range_dec tickLower) as [Hl|Hl];
    [|now rewrite (get_sqrt_ratio_at_tick_out_of_range _ Hl)].
  rewrite (get_sqrt_ratio_at_tick_in_range _ Hl). cbn.
  destruct (in_range_dec tickUpper) as [Hu|Hu]; [tauto|].
  now rewrite (get_sqrt_ratio_at_tick_out_of_range _ Hu).
Qed.

(** X10: [get_amounts_from_ticks] raises the [ValueError] of the tick
    conversion exactly when one of its three ticks is outside
    [-887272, 887272]; otherwise it returns a pair, whatever the liquidity. *)
Theorem get_amounts_from_ticks_domain tickCurrent tickLower tickUpper L :
  (get_amounts_from_ticks tickCurrent tickLower tickUpper L
     = Raise (ValueError "Tick value out of bounds")
   <-> 887272 < Z.abs tickCurrent \/ 887272 < Z.abs tickLower
       \/ 887272 < Z.abs tickUpper)
  /\ (Z.abs tickCurrent <= 887272 -> Z.abs tickLower <= 887272 ->
      Z.abs tickUpper <= 887272 ->
      exists amounts,
        get_amounts_from_ticks tickCurrent tickLower tickUpper L = Ok amounts).
Proof.
  assert (Hin : forall t, Z.abs t <= 887272 -> in_range t)
    by (intros t Ht; solve_in_range).
  assert (Hout : forall t, 887272 < Z.abs t -> ~ in_range t)
    by (intros t Ht; solve_in_range).
  assert (Hok : Z.abs tickCurrent <= 887272 -> Z.abs tickLower <= 887272 ->
                Z.abs tickUpper <= 887272 ->
                exists amounts,
                  get_amounts_from_ticks tickCurrent tickLower tickUpper L = Ok amounts).
  { intros Hc Hl Hu.
    destruct (get_amounts_from_ticks_value tickCurrent tickLower tickUpper L
                (Hin _ Hc) (Hin _ Hl) (Hin _ Hu)) as (c & l & u & _ & _ & _ & _ & _ & E).
    eexists. exact E. }
  split; [|exact Hok]. split.
  - intros Hraise.
    destruct (Z.lt_ge_cases 887272 (Z.abs tickCurrent)) as [?|Hc]; [tauto|].
    destruct (Z.lt_ge_cases 887272 (Z.abs tickLower)) as [?|Hl]; [tauto|].
    destruct (Z.lt_ge_cases 887272 (Z.abs tickUpper)) as [?|Hu]; [tauto|].
    destruct (Hok Hc Hl Hu) as [amounts E]. congruence.
  - intros Hbad. apply get_amounts_from_ticks_out_of_range.
    destruct Hbad as [Hb|[Hb|Hb]]; [left | right; left | right; right];
      now apply Hout.
Qed.

Lemma get_amounts_from_ticks_domain_witness :
  get_amounts_from_ticks 0 (-100) 887273 (10 ^ 18)
    = Raise (ValueError "Tick value out of bounds")
  /\ exists amounts, get_amounts_from_ticks 0 (-100) 100 (10 ^ 18) = Ok amounts.
Proof.
  split.
  - apply (proj1 (get_amounts_from_ticks_domain 0 (-100) 887273 (10 ^ 18))). lia.
  - apply (proj2 (get_amounts_from_ticks_domain 0 (-100) 100 (10 ^ 18))); lia.
Defined.

(** X11: the two range ticks may be given in either order: swapping
    [tickLower] and [tickUpper] changes neither the amounts nor the error. *)
Theorem get_amounts_from_ticks_range_order tickCurrent tickLower tickUpper L :
  get_amounts_from_ticks tickCurrent tickLower tickUpper L
  = get_amounts_from_ticks tickCurrent tickUpper tickLower L.
Proof.
  destruct (in_range_dec tickCurrent) as [Hc|Hc];
    [|unfold get_amounts_from_ticks;
      now rewrite (get_sqrt_ratio_at_tick_out_of_range _ Hc)].
  destruct (in_range_dec tickLower) as [Hl|Hl], (in_range_dec tickUpper) as [Hu|Hu].
  - destruct (get_amounts_from_ticks_value tickCurrent tickLower tickUpper L Hc Hl Hu)
      as (c & l & u & Ec & El & Eu & _ & _ & E).
    destruct (get_amounts_from_ticks_value tickCurrent tickUpper tickLower L Hc Hu Hl)
      as (c' & u' & l' & Ec' & Eu' & El' & _ & _ & E').
    rewrite E, E'.
    assert (c' = c) as -> by congruence.
    assert (l' = l) as -> by congruence.
    assert (u' = u) as -> by congruence.
    now rewrite (Z.min_comm u l), (Z.max_comm u l).
  - unfold get_amounts_from_ticks.
    rewrite (get_sqrt_ratio_at_tick_in_range _ Hc), (get_sqrt_ratio_at_tick_in_range _ Hl),
      (get_sqrt_ratio_at_tick_out_of_range _ Hu). reflexivity.
  - unfold get_amounts_from_ticks.
    rewrite (get_sqrt_ratio_at_tick_in_range _ Hc), (get_sqrt_ratio_at_tick_in_range _ Hu),
      (get_sqrt_ratio_at_tick_out_of_range _ Hl). reflexivity.
  - unfold get_amounts_from_ticks.
    rewrite (get_sqrt_ratio_at_tick_in_range _ Hc),
      (get_sqrt_ratio_at_tick_out_of_range _ Hu),
      (get_sqrt_ratio_at_tick_out_of_range _ Hl). reflexivity.
Qed.

(** The price of the smaller (larger) range tick is the smaller (larger)
    range price. *)
Lemma sqrt_ratio_min_max tl tu :
  in_range tl -> in_range tu ->
  round_up_shift32 (ratio_at_tick (Z.min tl tu))
    = Z.min (round_up_shift32 (ratio_at_tick tl)) (round_up_shift32 (ratio_at_tick tu))
  /\ round_up_shift32 (ratio_at_tick (Z.max tl tu))
     = Z.max (round_up_shift32 (ratio_at_tick tl)) (round_up_shift32 (ratio_at_tick tu)).
Proof.
  intros Hl Hu. destruct (Z.le_ge_cases tl tu) as [Hle|Hge].
  - pose proof (sqrt_ratio_monotone tl tu Hl Hu Hle).
    rewrite (Z.min_l tl), (Z.max_r tl) by assumption. lia.
  - pose proof (sqrt_ratio_monotone tu tl Hu Hl Hge).
    rewrite (Z.min_r tl), (Z.max_l tl) by assumption. lia.
Qed.

(** X12: in terms of ticks, a position is single-sided outside its range:
    with the current tick at or below the smaller range tick it holds no
    token1, and with the current tick at or above the larger range tick it
    holds no token0. *)
Theorem get_amounts_from_ticks_single_sided tickCurrent tickLower tickUpper L :
  -887272 <= tickCurrent <= 887272 ->
  -887272 <= tickLower <= 887272 ->
  -887272 <= tickUpper <= 887272 ->
  (tickCurrent <= Z.min tickLower tickUpper ->
   exists amount0,
     get_amounts_from_ticks tickCurrent tickLower tickUpper L = Ok (amount0, 0))
  /\ (Z.max tickLower tickUpper <= tickCurrent ->
      exists amount1,
        get_amounts_from_ticks tickCurrent tickLower tickUpper L = Ok (0, amount1)).
Proof.
  intros Hc Hl Hu.
  destruct (get_amounts_from_ticks_value tickCurrent tickLower tickUpper L Hc Hl Hu)
    as (c & l & u & Ec & El & Eu & Hc0 & Hlohi & E).
  rewrite get_sqrt_ratio_at_tick_in_range in Ec, El, Eu by assumption.
  injection Ec as <-. injection El as <-. injection Eu as <-.
  destruct (sqrt_ratio_min_max tickLower tickUpper Hl Hu) as [Emin Emax].
  rewrite E. clear E. split.
  - intros Hbelow.
    assert (Hmin : in_range (Z.min tickLower tickUpper)) by solve_in_range.
    pose proof (sqrt_ratio_monotone _ _ Hc Hmin Hbelow) as Hle.
    rewrite Emin in Hle.
    destruct (Z.leb_spec (round_up_shift32 (ratio_at_tick tickCurrent))
                (Z.min (round_up_shift32 (ratio_at_tick tickLower))
                       (round_up_shift32 (ratio_at_tick tickUpper)))); [|lia].
    eexists. reflexivity.
  - intros Habove.
    assert (Hmax : in_range (Z.max tickLower tickUpper)) by solve_in_range.
    pose proof (sqrt_ratio_monotone _ _ Hmax Hc Habove) as Hge.
    rewrite Emax in Hge.
    set (lo := Z.min _ _) in *. set (hi := Z.max _ _) in *.
    set (cur := round_up_shift32 (ratio_at_tick tickCurrent)) in *.
    destruct (Z.leb_spec cur lo).
    + (* the range is a single price and the current price sits on it *)
      assert (lo = hi) as <- by lia.
      exists (amount1_of lo lo L). unfold amount0_of, amount1_of.
      rewrite !Z.sub_diag, !Z.mul_0_r. reflexivity.
    + destruct (Z.ltb_spec cur hi); [lia|]. eexists. reflexivity.
Qed.

Lemma get_amounts_from_ticks_single_sided_witness :
  (exists amount0,
     get_amounts_from_ticks (-200) 100 (-100) (10 ^ 18) = Ok (amount0, 0))
  /\ (exists amount1,
        get_amounts_from_ticks 100 100 (-100) (10 ^ 18) = Ok (0, amount1)).
Proof.
  split.
  - apply (proj1 (get_amounts_from_ticks_single_sided (-200) 100 (-100) (10 ^ 18)
                    ltac:(lia) ltac:(lia) ltac:(lia))). lia.
  - apply (proj2 (get_amounts_from_ticks_single_sided 100 100 (-100) (10 ^ 18)
                    ltac:(lia) ltac:(lia) ltac:(lia))). lia.
Defined.

(** X13: as the current tick rises, a position of non-negative liquidity
    trades token0 for token1: over in-range ticks its token0 amount never
    grows and its token1 amount never shrinks. *)
Theorem get_amounts_from_ticks_monotone_in_current_tick
    tickCurrent tickCurrent' tickLower tickUpper L amount0 amount1 amount0' amount1' :
  -887272 <= tickCurrent <= 887272 ->
  -887272 <= tickCurrent' <= 887272 ->
  -887272 <= tickLower <= 887272 ->
  -887272 <= tickUpper <= 887272 ->
  0 <= L ->
  tickCurrent <= tickCurrent' ->
  get_amounts_from_ticks tickCurrent tickLower tickUpper L = Ok (amount0, amount1) ->
  get_amounts_from_ticks tickCurrent' tickLower tickUpper L = Ok (amount0', amount1') ->
  amount0' <= amount0 /\ amount1 <= amount1'.
Proof.
  intros Hc Hc' Hl Hu HL Hle E E'.
  destruct (get_amounts_from_ticks_value tickCurrent tickLower tickUpper L Hc Hl Hu)
    as (c & l & u & Ec & El & Eu & Hc0 & Hlohi & Ev).
  destruct (get_amounts_from_ticks_value tickCurrent' tickLower tickUpper L Hc' Hl Hu)
    as (c' & l' & u' & Ec' & El' & Eu' & Hc0' & _ & Ev').
  assert (l' = l) as -> by congruence.
  assert (u' = u) as -> by congruence.
  assert (Hcc : c <= c').
  { rewrite get_sqrt_ratio_at_tick_in_range in Ec, Ec' by assumption.
    injection Ec as <-. injection Ec' as <-. now apply sqrt_ratio_monotone. }
  rewrite Ev in E. rewrite Ev' in E'. clear Ev Ev' Ec Ec' El El' Eu Eu'.
  set (lo := Z.min l u) in *. set (hi := Z.max l u) in *.
  pose proof (amount0_of_nonneg lo hi L ltac:(lia) HL) as Hn0.
  pose proof (amount1_of_nonneg lo hi L ltac:(lia) HL) as Hn1.
  destruct (Z.leb_spec c lo) as [Hlow|Hlow];
    [|destruct (Z.ltb_spec c hi) as [Hmid|Hhigh]];
    (destruct (Z.leb_spec c' lo) as [Hlow'|Hlow'];
     [|destruct (Z.ltb_spec c' hi) as [Hmid'|Hhigh']]);
    injection E as <- <-; injection E' as <- <-; try lia.
  - (* below, then inside *)
    split; [apply amount0_of_range_mono; lia | apply amount1_of_nonneg; lia].
  - (* inside, then further inside *)
    split; [apply amount0_of_range_mono; lia | apply amount1_of_range_mono; lia].
  - (* inside, then above *)
    split; [apply amount0_of_nonneg; lia | apply amount1_of_range_mono; lia].
Qed.

Lemma get_amounts_from_ticks_monotone_in_current_tick_witness :
  4987272070749096 <= 9999541693800299 /\ 0 <= 4987272070749096.
Proof.
  apply (get_amounts_from_ticks_monotone_in_current_tick (-200) 0 (-100) 100 (10 ^ 18));
    try lia; vm_compute; reflexivity.
Defined.

(** X14: a position of non-negative liquidity over in-range ticks has
    non-negative amounts of both tokens. *)
Theorem get_amounts_from_ticks_nonneg tickCurrent tickLower tickUpper L :
  -887272 <= tickCurrent <= 887272 ->
  -887272 <= tickLower <= 887272 ->
  -887272 <= tickUpper <= 887272 ->
  0 <= L ->
  exists amount0 amount1,
    get_amounts_from_ticks tickCurrent tickLower tickUpper L = Ok (amount0, amount1)
    /\ 0 <= amount0 /\ 0 <= amount1.
Proof.
  intros Hc Hl Hu HL.
  destruct (get_amounts_from_ticks_value tickCurrent tickLower tickUpper L Hc Hl Hu)
    as (c & l & u & _ & _ & _ & Hc0 & Hlohi & E).
  rewrite E.
  destruct (Z.leb_spec c (Z.min l u)); [|destruct (Z.ltb_spec c (Z.max l u))];
    eexists _, _; (split; [reflexivity|]); split;
    first [lia | apply amount0_of_nonneg; lia | apply amount1_of_nonneg; lia].
Qed.

Lemma get_amounts_from_ticks_nonneg_witness :
  exists amount0 amount1,
    get_amounts_from_ticks 0 (-100) 100 (10 ^ 18) = Ok (amount0, amount1)
    /\ 0 <= amount0 /\ 0 <= amount1.
Proof. apply (get_amounts_from_ticks_nonneg 0 (-100) 100 (10 ^ 18)); lia. Defined.

(** * Further properties of the aggregation *)

(** ** The result dictionary *)

(** X15: any sequence of [add_or_update_dict] updates accumulates: the
    amount under a key ends as its amount before (0 when the key was
    missing) plus the sum of the values added under that key, in whatever
    order and however interleaved with other keys; and a key is in the
    dictionary afterwards exactly when it was there before or was updated,
    so no update ever removes a key. *)
Theorem add_or_update_dict_accumulates (updates : list (string * Z)) :
  forall (dictionary : gmap string Z) key,
    default 0
      (foldl (fun d u => add_or_update_dict d u.1 u.2) dictionary updates !! key)
    = default 0 (dictionary !! key) + total_under key updates
    /\ (is_Some
          (foldl (fun d u => add_or_update_dict d u.1 u.2) dictionary updates !! key)
        <-> is_Some (dictionary !! key) \/ key ∈ updates.*1).
Proof.
  induction updates as [|[k v] updates IH]; intros dictionary key.
  - cbn. split; [lia|]. rewrite elem_of_nil. tauto.
  - cbn [foldl fst snd total_under fmap list_fmap].
    destruct (IH (add_or_update_dict dictionary k v) key) as [Hval Hkey].
    rewrite Hval, Hkey. clear Hval Hkey IH.
    rewrite add_or_update_dict_lookup, elem_of_cons.
    destruct (decide (k = key)) as [->|Hne].
    + split; [cbn; lia|]. split; [intros _; right; now left|].
      intros _. left. eexists. reflexivity.
    + split; [lia|]. split; [tauto|].
      intros [H|[H|H]]; [tauto | congruence | tauto].
Qed.

Lemma add_or_update_dict_accumulates_witness :
  default 0
    (foldl (fun d u => add_or_update_dict d u.1 u.2) {[ "a" := 2 ]}
       [("a", 5); ("b", 1); ("a", 10)] !! "a")
  = default 0 (({[ "a" := 2 ]} : gmap string Z) !! "a")
    + total_under "a" [("a", 5); ("b", 1); ("a", 10)].
Proof.
  apply (proj1 (add_or_update_dict_accumulates
                  [("a", 5); ("b", 1); ("a", 10)] {[ "a" := 2 ]} "a")).
Defined.

(** X16: two updates commute, also on the same key: the result dictionary
    does not depend on the order in which amounts are added. *)
Theorem add_or_update_dict_comm (dictionary : gmap string Z) key1 value1 key2 value2 :
  add_or_update_dict (add_or_update_dict dictionary key1 value1) key2 value2
  = add_or_update_dict (add_or_update_dict dictionary key2 value2) key1 value1.
Proof.
  apply map_eq. intros k. rewrite !add_or_update_dict_lookup.
  destruct (decide (key1 = k)) as [->|H1], (decide (key2 = k)) as [->|H2];
    rewrite ?decide_True by reflexivity;
    repeat match goal with
           | |- context [decide (?a = ?b)] =>
               rewrite (decide_False (P := a = b)) by congruence
           end;
    try reflexivity.
  f_equal. cbn. lia.
Qed.

(** ** The pool lookup table, continued *)

Lemma build_pool_lookup_Some pools token0 token1 pool :
  build_pool_lookup pools !! (lower token0, lower token1) = Some pool ->
  pool ∈ pools /\ pair_matches pool token0 token1.
Proof.
  unfold build_pool_lookup.
  assert (Hgen : forall acc : gmap (string * string) Pool.mapping,
    foldl (fun pool_lookup pool =>
             let token0 := lower (Pool.token0 pool) in
             let token1 := lower (Pool.token1 pool) in
             <[(token1, token0) := pool]> (<[(token0, token1) := pool]> pool_lookup))
          acc pools !! (lower token0, lower token1) = Some pool ->
    acc !! (lower token0, lower token1) = Some pool
    \/ (pool ∈ pools /\ pair_matches pool token0 token1)).
  { induction pools as [|p pools IH]; intros acc; cbn [foldl].
    - now left.
    - intros Hfound. apply IH in Hfound as [Hacc | [Hin Hm]].
      + cbv zeta in Hacc. rewrite lookup_insert in Hacc.
        destruct (decide _) as [E|_].
        * injection Hacc as <-. right. split; [apply elem_of_cons; now left|].
          right. inversion E. split; congruence.
        * rewrite lookup_insert in Hacc. destruct (decide _) as [E|_]; [|now left].
          injection Hacc as <-. right. split; [apply elem_of_cons; now left|].
          left. inversion E. split; congruence.
      + right. split; [apply elem_of_cons; now right | exact Hm]. }
  intros Hfound. apply Hgen in Hfound as [Hempty | H]; [|exact H].
  rewrite lookup_empty in Hempty. discriminate.
Qed.

Lemma build_pool_lookup_sym pools a b :
  build_pool_lookup pools !! (a, b) = build_pool_lookup pools !! (b, a).
Proof.
  unfold build_pool_lookup.
  assert (Hgen : forall acc : gmap (string * string) Pool.mapping,
    acc !! (a, b) = acc !! (b, a) ->
    foldl (fun pool_lookup pool =>
             let token0 := lower (Pool.token0 pool) in
             let token1 := lower (Pool.token1 pool) in
             <[(token1, token0) := pool]> (<[(token0, token1) := pool]> pool_lookup))
          acc pools !! (a, b)
    = foldl (fun pool_lookup pool =>
               let token0 := lower (Pool.token0 pool) in
               let token1 := lower (Pool.token1 pool) in
               <[(token1, token0) := pool]> (<[(token0, token1) := pool]> pool_lookup))
            acc pools !! (b, a)).
  { induction pools as [|p pools IH]; intros acc Hacc; cbn [foldl]; [exact Hacc|].
    apply IH. cbv zeta. rewrite !lookup_insert.
    set (t0 := lower (Pool.token0 p)). set (t1 := lower (Pool.token1 p)).
    destruct (decide ((t1, t0) = (a, b))) as [E1|N1],
             (decide ((t1, t0) = (b, a))) as [E2|N2],
             (decide ((t0, t1) = (a, b))) as [E3|N3],
             (decide ((t0, t1) = (b, a))) as [E4|N4];
      try reflexivity; try exact Hacc;
      exfalso;
      repeat match goal with
             | E : (_, _) = (_, _) |- _ => injection E as ? ?
             end;
      subst;
      repeat match goal with
             | N : (?x, ?y) <> (?x, ?y) |- _ => now apply N
             end. }
  apply Hgen. now rewrite !lookup_empty.
Qed.

(** X17: the lookup built from a table finds a pool exactly for the token
    pairs that match one of its entries case-insensitively in one of the
    two orders; the pool found is such an entry, and both orders of a pair
    find the same pool. *)
Theorem build_pool_lookup_spec pools token0 token1 :
  (is_Some (build_pool_lookup pools !! (lower token0, lower token1))
   <-> exists pool, pool ∈ pools /\ pair_matches pool token0 token1)
  /\ (forall pool,
        build_pool_lookup pools !! (lower token0, lower token1) = Some pool ->
        pool ∈ pools /\ pair_matches pool token0 token1)
  /\ build_pool_lookup pools !! (lower token0, lower token1)
     = build_pool_lookup pools !! (lower token1, lower token0).
Proof.
  split; [|split].
  - split.
    + intros [pool Hpool]. exists pool. now apply build_pool_lookup_Some.
    + intros (pool & Hin & Hm).
      destruct (build_pool_lookup pools !! (lower token0, lower token1)) eqn:E;
        [eexists; reflexivity|].
      exfalso. exact (proj1 (build_pool_lookup_None pools token0 token1) E pool Hin Hm).
  - intros pool. apply build_pool_lookup_Some.
  - apply build_pool_lookup_sym.
Qed.

Lemma build_pool_lookup_spec_witness :
  wETH_USDbC ∈ POOL_NFT_MAPPINGS
  /\ pair_matches wETH_USDbC "0xD9AAEC86B65D86F6A7B5B1B0C42FFA531710B6CA"
       "0x4200000000000000000000000000000000000006".
Proof.
  apply (proj1 (proj2 (build_pool_lookup_spec POOL_NFT_MAPPINGS
                         "0xD9AAEC86B65D86F6A7B5B1B0C42FFA531710B6CA"
                         "0x4200000000000000000000000000000000000006"))).
  vm_compute. reflexivity.
Defined.

(** ** One entry of the position loop, continued *)

(** The body on an entry whose two reads return. *)
Lemma non_zero_body_priced asset_data w3 result i log nft_contract token_id
    details matching_pool slot0 :
  asset_data.1.1 !! i = Some nft_contract ->
  asset_data.1.2 !! i = Some token_id ->
  call_positions w3 log nft_contract token_id = Returned details ->
  pool_lookup !! (lower (Position.token0 details), lower (Position.token1 details))
    = Some matching_pool ->
  call_slot0 w3 (log ++ [PositionsCall nft_contract token_id]) (Pool.pool matching_pool)
    = Returned slot0 ->
  non_zero_body asset_data w3 result i log =
    match get_amounts_from_ticks (Slot0.tick slot0) (Position.tickLower details)
            (Position.tickUpper details) (Position.liquidity details) with
    | Ok amounts =>
        (Ok (add_or_update_dict
               (add_or_update_dict result (Position.token0 details) amounts.1)
               (Position.token1 details) amounts.2),
         log ++ [PositionsCall nft_contract token_id;
                 Slot0Call (Pool.pool matching_pool)])
    | Raise e =>
        (Raise e, log ++ [PositionsCall nft_contract token_id;
                          Slot0Call (Pool.pool matching_pool)])
    end.
Proof.
  intros Ha Hi Hpos Hpool Hslot. unfold non_zero_body. run_io.
  rewrite (item_Some _ _ _ Ha), (item_Some _ _ _ Hi).
  unfold get_nft_positions_details, call_or_none. rewrite Hpos, Hpool.
  unfold get_uniswap_slot0, call_or_none. rewrite Hslot.
  rewrite <- app_assoc. cbn [app].
  now destruct (get_amounts_from_ticks _ _ _ _).
Qed.

(** X18: a position token whose lookup, pool match and pool state read all
    succeed, with ticks the conversion accepts, adds its token0 amount under
    the position's token0 address and its token1 amount under the
    position's token1 address (as returned by the chain, not lower-cased);
    the two reads are made in that order and the loop goes on. *)
Theorem aggregation_prices_position asset_data w3 i rest result log nft_contract
    token_id details matching_pool slot0 amount0 amount1 :
  asset_data.1.1 !! i = Some nft_contract ->
  asset_data.1.2 !! i = Some token_id ->
  call_positions w3 log nft_contract token_id = Returned details ->
  pool_lookup !! (lower (Position.token0 details), lower (Position.token1 details))
    = Some matching_pool ->
  call_slot0 w3 (log ++ [PositionsCall nft_contract token_id]) (Pool.pool matching_pool)
    = Returned slot0 ->
  get_amounts_from_ticks (Slot0.tick slot0) (Position.tickLower details)
    (Position.tickUpper details) (Position.liquidity details) = Ok (amount0, amount1) ->
  for_each (non_zero_body asset_data w3) (i :: rest) result log
  = for_each (non_zero_body asset_data w3) rest
      (add_or_update_dict
         (add_or_update_dict result (Position.token0 details) amount0)
         (Position.token1 details) amount1)
      (log ++ [PositionsCall nft_contract token_id;
               Slot0Call (Pool.pool matching_pool)]).
Proof.
  intros Ha Hi Hpos Hpool Hslot Hamounts. rewrite for_each_cons.
  rewrite (non_zero_body_priced _ _ _ _ _ _ _ _ _ _ Ha Hi Hpos Hpool Hslot).
  now rewrite Hamounts.
Qed.

Lemma aggregation_prices_position_witness :
  for_each (non_zero_body sample_asset_data w3_sample) [2%nat] ∅ []
  = for_each (non_zero_body sample_asset_data w3_sample) []
      (add_or_update_dict
         (add_or_update_dict ∅ "0x4200000000000000000000000000000000000006"
            4987272070749096)
         "0x833589fCD6eDb6E08f4c7C32D4f71b54bdA02913" 4987272070749096)
      ([] ++ [PositionsCall "0x03a520b32C04BF3bEEf7BEb72E919cf822Ed34f1" 105363;
              Slot0Call "0xd0b53D9277642d899DF5C87A3966A349A798F224"]).
Proof.
  apply (aggregation_prices_position sample_asset_data w3_sample 2%nat [] ∅ []
           "0x03a520b32C04BF3bEEf7BEb72E919cf822Ed34f1" 105363 sample_position
           wETH_USDC sample_slot0).
  - reflexivity.
  - reflexivity.
  - reflexivity.
  - vm_compute. reflexivity.
  - reflexivity.
  - vm_compute. reflexivity.
Defined.


(** X19: a tick outside [-887272, 887272] coming back from the chain (the
    pool's current tick or one of the position's range ticks) is not
    recovered: the [ValueError] of the conversion ends the aggregation after
    the two reads, and the remaining entries are not visited. *)
Theorem aggregation_aborts_on_tick_out_of_range asset_data w3 i rest result log
    nft_contract token_id details matching_pool slot0 :
  asset_data.1.1 !! i = Some nft_contract ->
  asset_data.1.2 !! i = Some token_id ->
  call_positions w3 log nft_contract token_id = Returned details ->
  pool_lookup !! (lower (Position.token0 details), lower (Position.token1 details))
    = Some matching_pool ->
  call_slot0 w3 (log ++ [PositionsCall nft_contract token_id]) (Pool.pool matching_pool)
    = Returned slot0 ->
  887272 < Z.abs (Slot0.tick slot0) \/ 887272 < Z.abs (Position.tickLower details)
  \/ 887272 < Z.abs (Position.tickUpper details) ->
  for_each (non_zero_body asset_data w3) (i :: rest) result log
  = (Raise (ValueError "Tick value out of bounds"),
     log ++ [PositionsCall nft_contract token_id;
             Slot0Call (Pool.pool matching_pool)]).
Proof.
  intros Ha Hi Hpos Hpool Hslot Hbad. rewrite for_each_cons.
  rewrite (non_zero_body_priced _ _ _ _ _ _ _ _ _ _ Ha Hi Hpos Hpool Hslot).
  rewrite get_amounts_from_ticks_out_of_range; [reflexivity|].
  destruct Hbad as [Hb|[Hb|Hb]]; [left | right; left | right; right];
    solve_in_range.
Qed.

Lemma aggregation_aborts_on_tick_out_of_range_witness :
  for_each (non_zero_body sample_asset_data w3_bad_tick) [2%nat] ∅ []
  = (Raise (ValueError "Tick value out of bounds"),
     [] ++ [PositionsCall "0x03a520b32C04BF3bEEf7BEb72E919cf822Ed34f1" 105363;
            Slot0Call "0xd0b53D9277642d899DF5C87A3966A349A798F224"]).
Proof.
  apply (aggregation_aborts_on_tick_out_of_range sample_asset_data w3_bad_tick
           2%nat [] ∅ [] "0x03a520b32C04BF3bEEf7BEb72E919cf822Ed34f1" 105363
           sample_position wETH_USDC bad_slot0).
  - reflexivity.
  - reflexivity.
  - reflexivity.
  - vm_compute. reflexivity.
  - reflexivity.
  - left. cbn. lia.
Defined.


(** X20: only [ContractLogicError] is caught.  Any other exception raised
    by the position read, or by the pool state read after a successful
    lookup and pool match, ends the aggregation: the remaining entries are
    not visited and no further read is made. *)
Theorem aggregation_aborts_on_other_exception :
  (forall asset_data w3 i rest result log nft_contract token_id msg,
     asset_data.1.1 !! i = Some nft_contract ->
     asset_data.1.2 !! i = Some token_id ->
     call_positions w3 log nft_contract token_id = OtherException msg ->
     for_each (non_zero_body asset_data w3) (i :: rest) result log
     = (Raise (Web3Error msg), log ++ [PositionsCall nft_contract token_id]))
  /\ (forall asset_data w3 i rest result log nft_contract token_id details
             matching_pool msg,
        asset_data.1.1 !! i = Some nft_contract ->
        asset_data.1.2 !! i = Some token_id ->
        call_positions w3 log nft_contract token_id = Returned details ->
        pool_lookup !! (lower (Position.token0 details), lower (Position.token1 details))
          = Some matching_pool ->
        call_slot0 w3 (log ++ [PositionsCall nft_contract token_id])
          (Pool.pool matching_pool) = OtherException msg ->
        for_each (non_zero_body asset_data w3) (i :: rest) result log
        = (Raise (Web3Error msg),
           log ++ [PositionsCall nft_contract token_id;
                   Slot0Call (Pool.pool matching_pool)])).
Proof.
  split.
  - intros asset_data w3 i rest result log nft_contract token_id msg Ha Hi Hpos.
    rewrite for_each_cons. unfold non_zero_body. run_io.
    rewrite (item_Some _ _ _ Ha), (item_Some _ _ _ Hi).
    unfold get_nft_positions_details, call_or_none. now rewrite Hpos.
  - intros asset_data w3 i rest result log nft_contract token_id details
      matching_pool msg Ha Hi Hpos Hpool Hslot.
    rewrite for_each_cons. unfold non_zero_body. run_io.
    rewrite (item_Some _ _ _ Ha), (item_Some _ _ _ Hi).
    unfold get_nft_positions_details, call_or_none. rewrite Hpos, Hpool.
    unfold get_uniswap_slot0, call_or_none. rewrite Hslot.
    now rewrite <- app_assoc.
Qed.

Lemma aggregation_aborts_on_other_exception_witness :
  for_each (non_zero_body sample_asset_data w3_unreachable) [2%nat] ∅ []
  = (Raise (Web3Error "connection refused"),
     [] ++ [PositionsCall "0x03a520b32C04BF3bEEf7BEb72E919cf822Ed34f1" 105363])
  /\ for_each (non_zero_body sample_asset_data w3_slot0_unreachable) [2%nat] ∅ []
     = (Raise (Web3Error "connection refused"),
        [] ++ [PositionsCall "0x03a520b32C04BF3bEEf7BEb72E919cf822Ed34f1" 105363;
               Slot0Call "0xd0b53D9277642d899DF5C87A3966A349A798F224"]).
Proof.
  split.
  - apply (proj1 aggregation_aborts_on_other_exception sample_asset_data
             w3_unreachable 2%nat [] ∅ []
             "0x03a520b32C04BF3bEEf7BEb72E919cf822Ed34f1" 105363);
      reflexivity.
  - apply (proj2 aggregation_aborts_on_other_exception sample_asset_data
             w3_slot0_unreachable 2%nat [] ∅ []
             "0x03a520b32C04BF3bEEf7BEb72E919cf822Ed34f1" 105363 sample_position
             wETH_USDC).
    + reflexivity.
    + reflexivity.
    + reflexivity.
    + vm_compute. reflexivity.
    + reflexivity.
Defined.


(** ** The two index lists *)

Lemma elem_of_indices_from {A : Type} (p : A -> bool) (l : list A) :
  forall (k i : nat),
    i ∈ (List.filter (fun iv => p iv.2) (enumerate k l)).*1 <->
    exists v, (k <= i)%nat /\ l !! (i - k)%nat = Some v /\ p v = true.
Proof.
  induction l as [|x l IH]; intros k i; cbn [enumerate List.filter snd].
  - cbn. rewrite elem_of_nil. split; [tauto|]. intros (v & _ & H & _). discriminate.
  - assert (Htail : i ∈ (List.filter (fun iv => p iv.2) (enumerate (S k) l)).*1 <->
                    exists v, (k < i)%nat /\ (x :: l) !! (i - k)%nat = Some v /\ p v = true).
    { rewrite IH. split; intros (v & Hk & Hv & Hp); exists v; (split; [lia|]);
        (split; [|exact Hp]).
      - replace (i - k)%nat with (S (i - S k)) by lia. exact Hv.
      - replace (i - k)%nat with (S (i - S k)) in Hv by lia. exact Hv. }
    destruct (p x) eqn:Hpx.
    + cbn [fmap list_fmap fst]. rewrite elem_of_cons, Htail. split.
      * intros [-> | (v & Hk & Hv & Hp)].
        -- exists x. rewrite Nat.sub_diag. auto.
        -- exists v. split; [lia | auto].
      * intros (v & Hk & Hv & Hp). destruct (decide (i = k)) as [->|Hne]; [now left|].
        right. exists v. split; [lia | auto].
    + rewrite Htail. split.
      * intros (v & Hk & Hv & Hp). exists v. split; [lia | auto].
      * intros (v & Hk & Hv & Hp). exists v. split; [|auto].
        destruct (decide (i = k)) as [->|Hne]; [|lia].
        rewrite Nat.sub_diag in Hv. cbn in Hv. congruence.
Qed.

Lemma elem_of_indices_where {A : Type} (p : A -> bool) (l : list A) (i : nat) :
  i ∈ indices_where p l <-> exists v, l !! i = Some v /\ p v = true.
Proof.
  unfold indices_where. rewrite elem_of_indices_from.
  rewrite Nat.sub_0_r. split.
  - intros (v & _ & H). now exists v.
  - intros (v & H). exists v. split; [lia | exact H].
Qed.

Lemma indices_from_partition {A : Type} (p : A -> bool) (l : list A) :
  forall k : nat,
    (List.filter (fun iv => p iv.2) (enumerate k l)).*1
    ++ (List.filter (fun iv => negb (p iv.2)) (enumerate k l)).*1
    ≡ₚ seq k (length l).
Proof.
  induction l as [|x l IH]; intros k; cbn [enumerate List.filter snd length seq].
  - reflexivity.
  - destruct (p x); cbn [negb fmap list_fmap fst app].
    + now rewrite IH.
    + rewrite <- Permutation_middle. now rewrite IH.
Qed.



(** X21: the two index lists split the entries: together they hold every
    index of the identifier list exactly once, the first the indices of the
    zero identifiers and the second those of the non-zero ones.  No entry is
    visited twice and none is left out. *)
Theorem zero_and_non_zero_indices_partition (ids : list Z) :
  indices_where (fun value => value =? 0) ids
    ++ indices_where (fun value => negb (value =? 0)) ids
    ≡ₚ seq 0 (length ids)
  /\ (forall i : nat,
        i ∈ indices_where (fun value => value =? 0) ids <-> ids !! i = Some 0)
  /\ (forall i : nat,
        i ∈ indices_where (fun value => negb (value =? 0)) ids
        <-> exists id, ids !! i = Some id /\ id <> 0).
Proof.
  split; [|split].
  - apply (indices_from_partition (fun value => value =? 0) ids 0%nat).
  - intros i. rewrite elem_of_indices_where. split.
    + intros (v & Hv & Hp). apply Z.eqb_eq in Hp. now subst.
    + intros Hv. exists 0. now split.
  - intros i. rewrite elem_of_indices_where. split.
    + intros (v & Hv & Hp). exists v. split; [exact Hv|].
      intros ->. discriminate Hp.
    + intros (v & Hv & Hne). exists v. split; [exact Hv|].
      apply negb_true_iff. now apply Z.eqb_neq.
Qed.

Lemma zero_and_non_zero_indices_partition_witness :
  (1%nat ∈ indices_where (fun value => value =? 0) sample_asset_data.1.2)
  /\ (2%nat ∈ indices_where (fun value => negb (value =? 0)) sample_asset_data.1.2).
Proof.
  destruct (zero_and_non_zero_indices_partition sample_asset_data.1.2)
    as (_ & Hzero & Hnon_zero).
  split.
  - apply Hzero. reflexivity.
  - apply Hnon_zero. exists 105363. split; [reflexivity | discriminate].
Defined.

(** ** Lists of unequal length *)

Lemma zero_body_missing asset_data result i log :
  asset_data.1.1 !! i = None \/ asset_data.2 !! i = None ->
  zero_body asset_data result i log = (Raise IndexError, log).
Proof.
  intros Hmiss. unfold zero_body. run_io. unfold item.
  destruct (asset_data.1.1 !! i); [|reflexivity].
  destruct Hmiss as [Hmiss|Hmiss]; [discriminate|]. now rewrite Hmiss.
Qed.

(** The fungible loop makes no read, and fails only with [IndexError]. *)
Lemma zero_body_outcome asset_data result i log :
  (exists result', zero_body asset_data result i log = (Ok result', log))
  \/ zero_body asset_data result i log = (Raise IndexError, log).
Proof.
  unfold zero_body. run_io. unfold item.
  destruct (asset_data.1.1 !! i); [|now right].
  destruct (asset_data.2 !! i); [left; eexists; reflexivity | now right].
Qed.


Lemma zero_loop_missing asset_data indices : forall result log i,
  i ∈ indices ->
  asset_data.1.1 !! i = None \/ asset_data.2 !! i = None ->
  for_each (zero_body asset_data) indices result log = (Raise IndexError, log).
Proof.
  induction indices as [|j indices IH]; intros result log i Hin Hmiss.
  - now apply elem_of_nil in Hin.
  - rewrite for_each_cons.
    destruct (zero_body_outcome asset_data result j log) as [[result' E] | E];
      rewrite E; [|reflexivity].
    rewrite elem_of_cons in Hin. destruct Hin as [->|Hin].
    + rewrite (zero_body_missing _ _ _ _ Hmiss) in E. discriminate.
    + now apply (IH _ _ i).
Qed.

(** X22: lists of unequal length are not tolerated for fungible balances:
    if an entry with identifier zero has no address or no amount at its
    index, the aggregation raises [IndexError], before any read is made. *)
Theorem aggregation_raises_on_short_lists addresses ids amounts w3 log (i : nat) :
  ids !! i = Some 0 ->
  addresses !! i = None \/ amounts !! i = None ->
  get_arcadia_account_nft_position (addresses, ids, amounts) w3 log
  = (Raise IndexError, log).
Proof.
  intros Hid Hmiss. unfold get_arcadia_account_nft_position. cbv zeta.
  unfold mbind at 1, io_bind at 1.
  rewrite (zero_loop_missing (addresses, ids, amounts) _ ∅ log i); [reflexivity | |exact Hmiss].
  apply elem_of_indices_where. exists 0. now split.
Qed.

Lemma aggregation_raises_on_short_lists_witness :
  get_arcadia_account_nft_position
    (["0x4200000000000000000000000000000000000006"], [0; 0], [100; 50])
    w3_no_contract []
  = (Raise IndexError, []).
Proof.
  apply (aggregation_raises_on_short_lists _ _ _ _ _ 1%nat);
    [reflexivity | left; reflexivity].
Defined.

(** ** The reads of an aggregation *)






(** ** Order of the fungible balances *)

Lemma total_under_Permutation address (l l' : list (string * Z)) :
  l ≡ₚ l' -> total_under address l = total_under address l'.
Proof.
  induction 1 as [|[k v] l l' _ IH|[k1 v1] [k2 v2] l|l1 l2 l3 _ IH1 _ IH2];
    cbn [total_under].
  - reflexivity.
  - now rewrite IH.
  - destruct (decide (k1 = address)), (decide (k2 = address)); lia.
  - congruence.
Qed.

(** X24: an account of fungible balances only aggregates to the same map in
    whatever order its (address, amount) entries are listed. *)
Theorem aggregation_fungible_order addresses ids amounts addresses' ids' amounts' w3 log :
  Forall (fun id => id = 0) ids -> Forall (fun id => id = 0) ids' ->
  length addresses = length ids -> length amounts = length ids ->
  length addresses' = length ids' -> length amounts' = length ids' ->
  zip addresses amounts ≡ₚ zip addresses' amounts' ->
  get_arcadia_account_nft_position (addresses, ids, amounts) w3 log
  = get_arcadia_account_nft_position (addresses', ids', amounts') w3 log.
Proof.
  intros Hz Hz' Hla Hlm Hla' Hlm' Hperm.
  destruct (degraded_run addresses ids amounts w3 log Hla Hlm)
    as (result & Hrun & Hlookup).
  { intros i nft_contract token_id log' _ Hi Hne.
    rewrite Forall_lookup in Hz. now specialize (Hz i token_id Hi). }
  destruct (degraded_run addresses' ids' amounts' w3 log Hla' Hlm')
    as (result' & Hrun' & Hlookup').
  { intros i nft_contract token_id log' _ Hi Hne.
    rewrite Forall_lookup in Hz'. now specialize (Hz' i token_id Hi). }
  rewrite Hrun, Hrun'. unfold entries in *. cbn [fst snd] in *.
  rewrite !position_entries_all_zero by assumption.
  rewrite fungible_entries_all_zero in Hlookup by assumption.
  rewrite fungible_entries_all_zero in Hlookup' by assumption.
  do 2 f_equal. apply map_eq. intros address.
  rewrite Hlookup, Hlookup'.
  rewrite (total_under_Permutation address _ _ Hperm).
  assert (Hin : address ∈ addresses <-> address ∈ addresses').
  { rewrite <- (fst_zip addresses amounts) by lia.
    rewrite <- (fst_zip addresses' amounts') by lia.
    now rewrite Hperm. }
  destruct (decide (address ∈ addresses)), (decide (address ∈ addresses'));
    tauto || reflexivity.
Qed.

Lemma aggregation_fungible_order_witness :
  get_arcadia_account_nft_position
    (["0x2Ae3F1Ec7F1F5012CFEab0185bfc7aa3cf0DEc22";
      "0x4200000000000000000000000000000000000006"], [0; 0], [100; 50])
    w3_no_contract []
  = get_arcadia_account_nft_position
      (["0x4200000000000000000000000000000000000006";
        "0x2Ae3F1Ec7F1F5012CFEab0185bfc7aa3cf0DEc22"], [0; 0], [50; 100])
      w3_no_contract [].
Proof.
  apply aggregation_fungible_order; try reflexivity; repeat constructor.
Defined.
